(** * Smart Expense Analyzer: the text-to-record extraction pipeline

    A shallow embedding of [backend/process_document.py] and the properties
    its specification states about it, and of [backend/upload_api.py], the
    handler that puts the documents under the keys the processor reads.

    Conventions of the embedding.
    - A Python [str] is a list of characters ([text]).  Characters are the
      code points U+0000..U+00FF; on that range [\s], [\d], [str.lower],
      [str.strip] and [re.IGNORECASE] are written out as CPython defines
      them.
    - A regular expression of the source is a term of [regex], run by a
      backtracking matcher with Python's priorities (leftmost start, greedy
      repetition, alternatives left to right).
    - [datetime.strptime] is the matcher on the expressions [_strptime]
      gives the directives, then the calendar check of the [datetime]
      constructor; [strftime] prints as glibc does, the C library of the
      [python3.9] Lambda runtime the repository deploys to.
    - A [Decimal] is its sign, coefficient and exponent; a Python value is
      a term of [pyval].
    - Exceptions are values of [exn], carried by the result type [res].
    - Clock reads, random identifiers and the AWS collaborators are explicit
      inputs, and so are [json.loads] and [base64.b64decode] in the upload
      handler.  [print] calls are left out. *)

From Stdlib Require Import Ascii String.
From Stdlib Require Import List ZArith NArith Arith Lia Bool.
From Stdlib Require Import Floats.SpecFloat.
Import ListNotations.

Local Open Scope char_scope.
Local Open Scope nat_scope.
Local Open Scope list_scope.

(* ------------------------------------------------------------------ *)
(** ** Characters and strings *)

Definition text := list ascii.

(** A string literal of the source. *)
Definition txt (s : string) : text := list_ascii_of_string s.

Definition code (c : ascii) : nat := nat_of_ascii c.

Definition between (lo hi : nat) (c : ascii) : bool :=
  (lo <=? code c) && (code c <=? hi).

(** [[0-9]], which on this range is also [\d]. *)
Definition is_digit (c : ascii) : bool := between 48 57 c.

(** [\s] and [str.isspace]: TAB..CR, FS..US, space, NEL and NBSP. *)
Definition is_space (c : ascii) : bool :=
  between 9 13 c || between 28 32 c || (code c =? 133) || (code c =? 160).

(** [str.lower] on one character: A-Z and the Latin-1 capitals. *)
Definition lower_char (c : ascii) : ascii :=
  if between 65 90 c || between 192 214 c || between 216 222 c
  then ascii_of_nat (code c + 32) else c.

Definition lower (s : text) : text := map lower_char s.

Definition text_eqb (a b : text) : bool :=
  if list_eq_dec ascii_dec a b then true else false.

Fixpoint startswith (p s : text) : bool :=
  match p, s with
  | [], _ => true
  | _ :: _, [] => false
  | a :: p', b :: s' => Ascii.eqb a b && startswith p' s'
  end.

(** [p in s] for strings. *)
Fixpoint contains (p s : text) : bool :=
  startswith p s ||
  match s with
  | [] => false
  | _ :: s' => contains p s'
  end.

Definition endswith (p s : text) : bool := startswith (rev p) (rev s).

Fixpoint lstrip (s : text) : text :=
  match s with
  | c :: s' => if is_space c then lstrip s' else s
  | [] => []
  end.

Definition strip (s : text) : text := rev (lstrip (rev (lstrip s))).

(** [s.split(sep)] for a one-character separator: never empty. *)
Fixpoint split (sep : ascii) (s : text) : list text :=
  match s with
  | [] => [[]]
  | c :: s' =>
      if Ascii.eqb c sep then [] :: split sep s'
      else match split sep s' with
           | l :: ls => (c :: l) :: ls
           | [] => [[c]]
           end
  end.

Definition replace_char (a b : ascii) (s : text) : text :=
  map (fun c => if Ascii.eqb c a then b else c) s.

(** [int(s)] on a run of decimal digits. *)
Definition digit_val (c : ascii) : Z := Z.of_nat (code c - 48).

Definition int_of (s : text) : Z :=
  fold_left (fun acc c => 10 * acc + digit_val c)%Z (strip s) 0%Z.

(* ------------------------------------------------------------------ *)
(** ** Regular expressions *)

Definition caps := list (ascii * text).

Inductive regex : Type :=
| Eps
| Chr (p : ascii -> bool)          (* one character of a class *)
| Cat (a b : regex)
| Alt (a b : regex)                (* a|b, a first *)
| Opt (a : regex)                  (* a?, greedy *)
| Star (p : ascii -> bool)         (* [class]*, greedy *)
| Grp (g : ascii) (a : regex)      (* capturing group named g *)
| Bos                              (* ^ *)
| Eos                              (* $ *)
| Ahead (a : regex).               (* (?=a) *)

Definition cont := nat -> text -> caps -> option (nat * caps).

Fixpoint star (p : ascii -> bool) (k : cont) (i : nat) (s : text) (c : caps)
  : option (nat * caps) :=
  match s with
  | x :: s' =>
      if p x then
        match star p k (S i) s' c with
        | Some r => Some r
        | None => k i s c
        end
      else k i s c
  | [] => k i s c
  end.

Definition accept : cont := fun j _ c => Some (j, c).

(** [run r k i s c]: match [r] at offset [i], where [s] is the text from
    [i] on and [c] the groups closed so far, then continue with [k]. *)
Fixpoint run (r : regex) (k : cont) (i : nat) (s : text) (c : caps)
  : option (nat * caps) :=
  match r with
  | Eps => k i s c
  | Chr p =>
      match s with
      | x :: s' => if p x then k (S i) s' c else None
      | [] => None
      end
  | Cat a b => run a (run b k) i s c
  | Alt a b =>
      match run a k i s c with
      | Some r => Some r
      | None => run b k i s c
      end
  | Opt a =>
      match run a k i s c with
      | Some r => Some r
      | None => k i s c
      end
  | Star p => star p k i s c
  | Grp g a => run a (fun j s' c' => k j s' ((g, firstn (j - i) s) :: c')) i s c
  | Bos => if i =? 0 then k i s c else None
  | Eos =>
      match s with
      | [] => k i s c
      | [x] => if Ascii.eqb x "010" then k i s c else None
      | _ => None
      end
  | Ahead a =>
      match run a accept i s c with
      | Some _ => k i s c
      | None => None
      end
  end.

(** [re.match]: at the start of the text only. *)
Definition re_match (r : regex) (s : text) : option (nat * caps) :=
  run r accept 0 s [].

(** [re.search]: the leftmost start that matches; the result is the start,
    the end and the groups. *)
Fixpoint search_from (r : regex) (i : nat) (s : text)
  : option (nat * (nat * caps)) :=
  match run r accept i s [] with
  | Some m => Some (i, m)
  | None =>
      match s with
      | [] => None
      | _ :: s' => search_from r (S i) s'
      end
  end.

Definition re_search (r : regex) (s : text) : option (nat * (nat * caps)) :=
  search_from r 0 s.

Fixpoint group (g : ascii) (c : caps) : option text :=
  match c with
  | [] => None
  | (g', v) :: c' => if Ascii.eqb g g' then Some v else group g c'
  end.

(** [match.group(1)] of [re.search(pattern, text, re.IGNORECASE)]. *)
Definition search_group1 (r : regex) (s : text) : option text :=
  match re_search r s with
  | Some (_, (_, c)) => group "1" c
  | None => None
  end.

(** Pattern characters under [re.IGNORECASE]. *)
Definition ci (c : ascii) : regex :=
  Chr (fun x => Ascii.eqb (lower_char x) (lower_char c)).

Fixpoint lit (s : text) : regex :=
  match s with
  | [] => Eps
  | [c] => ci c
  | c :: s' => Cat (ci c) (lit s')
  end.

Definition is_char (a : ascii) : ascii -> bool := Ascii.eqb a.

Definition digits1 : regex := Cat (Chr is_digit) (Star is_digit).   (* [0-9]+ *)
Definition digits2 : regex := Cat (Chr is_digit) (Chr is_digit).   (* [0-9]{2} *)
Definition digits12 : regex := Cat (Chr is_digit) (Opt (Chr is_digit)). (* \d{1,2} *)
Definition digits4 : regex := Cat digits2 digits2.                  (* \d{4} *)
Definition digits24 : regex :=                                      (* \d{2,4} *)
  Cat digits2 (Opt (Cat (Chr is_digit) (Opt (Chr is_digit)))).

(* ------------------------------------------------------------------ *)
(** ** Exceptions *)

(** The exception classes the code can meet; all derive from [Exception].
    [InvalidOperation] is [decimal.InvalidOperation], an [ArithmeticError];
    [ServiceError] stands for whatever a collaborator raises. *)
Inductive exn : Type :=
| TypeError | KeyError | ValueError | AttributeError
| InvalidOperation | NameError | ServiceError.

Inductive res (A : Type) : Type :=
| Ok (a : A)
| Raise (e : exn).

Arguments Ok {A} a.
Arguments Raise {A} e.

Definition bind {A B : Type} (m : res A) (f : A -> res B) : res B :=
  match m with
  | Ok a => f a
  | Raise e => Raise e
  end.

Notation "x <- m ;; f" := (bind m (fun x => f))
  (at level 61, m at next level, right associativity).

(* ------------------------------------------------------------------ *)
(** ** decimal.Decimal *)

(** A finite decimal is [(-1)^neg * coef * 10^exp]. *)
Inductive Decimal : Type :=
| DFin (neg : bool) (coef : N) (exp : Z)
| DInf (neg : bool)
| DNaN.

Definition digit_N (c : ascii) : N := N.of_nat (code c - 48).

Definition coef_of (s : text) : N :=
  fold_left (fun acc c => (10 * acc + digit_N c)%N) s 0%N.

Fixpoint take_digits (s : text) : text :=
  match s with
  | c :: s' => if is_digit c then c :: take_digits s' else []
  | [] => []
  end.

Fixpoint drop_digits (s : text) : text :=
  match s with
  | c :: s' => if is_digit c then drop_digits s' else s
  | [] => []
  end.

Definition is_nil {A : Type} (l : list A) : bool :=
  match l with [] => true | _ => false end.

(** [Decimal(s)] on plain literals: an optional sign, digits and an
    optional fraction, with a digit somewhere; what is not a plain literal
    raises.  That is the constructor as it behaves on strings of digits and
    dots, which is all an amount pattern captures ([capture_plain]); the
    exponents, special values, underscores and blanks it also reads are
    not written out. *)
Definition Decimal_of_str (s : text) : res Decimal :=
  let '(neg, s1) :=
    match s with
    | c :: r =>
        if Ascii.eqb c "-" then (true, r)
        else if Ascii.eqb c "+" then (false, r) else (false, s)
    | [] => (false, s)
    end in
  let ip := take_digits s1 in
  match drop_digits s1 with
  | [] => if is_nil ip then Raise InvalidOperation
          else Ok (DFin neg (coef_of ip) 0)
  | c :: r2 =>
      let fp := take_digits r2 in
      if Ascii.eqb c "." && is_nil (drop_digits r2) && negb (is_nil (ip ++ fp))
      then Ok (DFin neg (coef_of (ip ++ fp)) (- Z.of_nat (length fp)))
      else Raise InvalidOperation
  end.

(** [Decimal(match.group(1))]: a group that took no part is [None]. *)
Definition Decimal_of_group (g : option text) : res Decimal :=
  match g with
  | Some s => Decimal_of_str s
  | None => Raise TypeError
  end.

(** [d > 0]; an ordering with NaN signals. *)
Definition dec_gt0 (d : Decimal) : res bool :=
  match d with
  | DFin neg coef _ => Ok (negb neg && (0 <? coef)%N)
  | DInf neg => Ok (negb neg)
  | DNaN => Raise InvalidOperation
  end.

(** [d <= 0] *)
Definition dec_le0 (d : Decimal) : res bool :=
  match d with
  | DFin neg coef _ => Ok (neg || (coef =? 0)%N)
  | DInf neg => Ok neg
  | DNaN => Raise InvalidOperation
  end.

(** [bool(d)] *)
Definition dec_truthy (d : Decimal) : bool :=
  match d with
  | DFin _ coef _ => negb (coef =? 0)%N
  | _ => true
  end.

(** The numeric value of a finite decimal, in units of [10^-scale]. *)
Definition dec_units (scale : Z) (d : Decimal) : option Z :=
  match d with
  | DFin neg coef exp =>
      if (0 <=? exp + scale)%Z
      then Some ((if neg then -1 else 1) * Z.of_N coef * 10 ^ (exp + scale))%Z
      else None
  | _ => None
  end.

(* ------------------------------------------------------------------ *)
(** ** Amount extraction ([extract_expense_info], first part) *)

Definition colon_or_space (c : ascii) : bool := is_char ":" c || is_space c.

(** [[0-9]+(?:\.[0-9]{2})?] *)
Definition money : regex := Cat digits1 (Opt (Cat (Chr (is_char ".")) digits2)).

(** [Total[:\s]*\$?([0-9]+(?:\.[0-9]{2})?)] *)
Definition pat_total : regex :=
  Cat (lit (txt "Total"))
    (Cat (Star colon_or_space) (Cat (Opt (Chr (is_char "$"))) (Grp "1" money))).

(** [Amount[:\s]*\$?([0-9]+(?:\.[0-9]{2})?)] *)
Definition pat_amount : regex :=
  Cat (lit (txt "Amount"))
    (Cat (Star colon_or_space) (Cat (Opt (Chr (is_char "$"))) (Grp "1" money))).

(** [\$([0-9]+\.[0-9]{2})] *)
Definition pat_dollar : regex :=
  Cat (Chr (is_char "$"))
    (Grp "1" (Cat digits1 (Cat (Chr (is_char ".")) digits2))).

(** [(?:^|\s)([0-9]+\.[0-9]{2})(?=\s|$)] *)
Definition pat_bare : regex :=
  Cat (Alt Bos (Chr is_space))
    (Cat (Grp "1" (Cat digits1 (Cat (Chr (is_char ".")) digits2)))
       (Ahead (Alt (Chr is_space) Eos))).

Definition amount_patterns : list regex :=
  [pat_total; pat_amount; pat_dollar; pat_bare].

(** [Decimal('0.00')] *)
Definition zero_amount : Decimal := DFin false 0 (-2).

(** What one pattern yields: [Some d] when the loop breaks with [d],
    [None] when it goes on ([continue], no match, or a value not above 0). *)
Definition try_amount (p : regex) (s : text) : res (option Decimal) :=
  match re_search p s with
  | Some (_, (_, c)) =>
      match (d <- Decimal_of_group (group "1" c) ;;
             b <- dec_gt0 d ;; Ok (d, b)) with
      | Ok (d, true) => Ok (Some d)
      | Ok (_, false) => Ok None
      | Raise ValueError | Raise InvalidOperation => Ok None
      | Raise e => Raise e
      end
  | None => Ok None
  end.

Fixpoint amount_loop (ps : list regex) (s : text) (amount : Decimal)
  : res Decimal :=
  match ps with
  | [] => Ok amount
  | p :: ps' =>
      r <- try_amount p s ;;
      match r with
      | Some d => Ok d
      | None => amount_loop ps' s amount
      end
  end.

Definition extract_amount (s : text) : res Decimal :=
  amount_loop amount_patterns s zero_amount.

Definition NL : ascii := "010"%char.

(* ------------------------------------------------------------------ *)
(** ** Calendar dates, [strptime] and [strftime] *)

Record date : Type := mkdate { year : Z; month : Z; day : Z }.

Definition is_leap (y : Z) : bool :=
  ((y mod 4 =? 0) && (negb (y mod 100 =? 0) || (y mod 400 =? 0)))%Z.

Definition days_in_month (y m : Z) : Z :=
  match m with
  | 2 => if is_leap y then 29 else 28
  | 4 | 6 | 9 | 11 => 30
  | _ => 31
  end%Z.

(** What the [datetime] constructor accepts. *)
Definition valid_date (d : date) : bool :=
  ((1 <=? year d) && (year d <=? 9999) &&
   (1 <=? month d) && (month d <=? 12) &&
   (1 <=? day d) && (day d <=? days_in_month (year d) (month d)))%Z.

(** The regular expressions [_strptime] gives the directives:
    [%Y] is [\d\d\d\d], [%y] is [\d\d], [%m] is [1[0-2]|0[1-9]|[1-9]] and
    [%d] is [3[0-1]|[1-2]\d|0[1-9]|[1-9]| [1-9]]. *)
Definition directive (d : ascii) : regex :=
  match d with
  | "Y" => Grp "Y" digits4
  | "y" => Grp "y" digits2
  | "m" =>
      Grp "m" (Alt (Cat (Chr (is_char "1")) (Chr (between 48 50)))
              (Alt (Cat (Chr (is_char "0")) (Chr (between 49 57)))
                   (Chr (between 49 57))))
  | "d" =>
      Grp "d" (Alt (Cat (Chr (is_char "3")) (Chr (between 48 49)))
              (Alt (Cat (Chr (between 49 50)) (Chr is_digit))
              (Alt (Cat (Chr (is_char "0")) (Chr (between 49 57)))
              (Alt (Chr (between 49 57))
                   (Cat (Chr (is_char " ")) (Chr (between 49 57)))))))
  | _ => Chr (fun _ => false)      (* no other directive is used *)
  end.

Fixpoint format_regex (f : text) : regex :=
  match f with
  | [] => Eps
  | c :: f' =>
      if Ascii.eqb c "%" then
        match f' with
        | d :: f'' => Cat (directive d) (format_regex f'')
        | [] => Chr (fun _ => false)
        end
      else Cat (ci c) (format_regex f')
  end.

(** The fields of a match: a four-digit year as it is, a two-digit year
    with the pivot of [_strptime] (00-68 are 2000-2068, 69-99 are
    1969-1999). *)
Definition year_of (c : caps) : Z :=
  match group "Y" c, group "y" c with
  | Some y, _ => int_of y
  | None, Some y =>
      if (int_of y <=? 68)%Z then (2000 + int_of y)%Z else (1900 + int_of y)%Z
  | None, None => 1900%Z
  end.

Definition field_of (g : ascii) (c : caps) : Z :=
  match group g c with
  | Some v => int_of v
  | None => 1%Z
  end.

(** [datetime.strptime(s, f)]: the format's expression must match at the
    start and use up the whole string, and the fields must make a date. *)
Definition strptime (s f : text) : res date :=
  match run (format_regex f) accept 0 s [] with
  | None => Raise ValueError
  | Some (j, c) =>
      if j =? length s then
        let d := mkdate (year_of c) (field_of "m" c) (field_of "d" c) in
        if valid_date d then Ok d else Raise ValueError
      else Raise ValueError
  end.

(** [d.replace(year=y)] *)
Definition replace_year (d : date) (y : Z) : res date :=
  let d' := mkdate y (month d) (day d) in
  if valid_date d' then Ok d' else Raise ValueError.

Definition digit_char (n : Z) : ascii :=
  ascii_of_nat (48 + Z.to_nat (n mod 10)).

Fixpoint digits_of (fuel : nat) (n : Z) (acc : text) : text :=
  match fuel with
  | 0 => acc
  | S f =>
      let acc' := digit_char n :: acc in
      if (n / 10 =? 0)%Z then acc' else digits_of f (n / 10) acc'
  end.

(** [str(n)] for [n >= 0] *)
Definition str_int (n : Z) : text := digits_of (S (Z.to_nat n)) n [].

(** [%m] and [%d]: two digits. *)
Definition pad2 (n : Z) : text := [digit_char (n / 10); digit_char n].

(** [d.strftime('%Y-%m-%d')].  CPython hands [%Y] to the C library, and
    glibc, the library of the [python3.9] Lambda runtime the repository
    deploys to, prints the year as a plain decimal number: a year below
    1000 comes out with fewer than four digits. *)
Definition strftime (d : date) : text :=
  str_int (year d) ++ "-" :: pad2 (month d) ++ "-" :: pad2 (day d).

(* ------------------------------------------------------------------ *)
(** ** [extract_date] *)

Definition slash_or_dash (c : ascii) : bool := is_char "/" c || is_char "-" c.

(** [(\d{1,2}[/-]\d{1,2}[/-]\d{4})] *)
Definition pat_date1 : regex :=
  Grp "1" (Cat digits12 (Cat (Chr slash_or_dash)
          (Cat digits12 (Cat (Chr slash_or_dash) digits4)))).

(** [(\d{4}[/-]\d{1,2}[/-]\d{1,2})] *)
Definition pat_date2 : regex :=
  Grp "1" (Cat digits4 (Cat (Chr slash_or_dash)
          (Cat digits12 (Cat (Chr slash_or_dash) digits12)))).

(** [(\d{1,2}[/-]\d{1,2}[/-]\d{2})] *)
Definition pat_date3 : regex :=
  Grp "1" (Cat digits12 (Cat (Chr slash_or_dash)
          (Cat digits12 (Cat (Chr slash_or_dash) digits2)))).

(** [Date[:\s]*(\d{1,2}[/-]\d{1,2}[/-]\d{2,4})] *)
Definition pat_date4 : regex :=
  Cat (lit (txt "Date")) (Cat (Star colon_or_space)
    (Grp "1" (Cat digits12 (Cat (Chr slash_or_dash)
             (Cat digits12 (Cat (Chr slash_or_dash) digits24)))))).

Definition date_patterns : list regex :=
  [pat_date1; pat_date2; pat_date3; pat_date4].

Definition date_formats : list text :=
  [txt "%m/%d/%Y"; txt "%d/%m/%Y"; txt "%Y-%m-%d"; txt "%m-%d-%Y";
   txt "%d-%m-%Y"; txt "%m/%d/%y"; txt "%d/%m/%y"].

(** The body of the [try] for one format: the text to return, or [None]
    when a [ValueError] sends the loop to the next format. *)
Definition try_format (date_str : text) (fmt : text) : res (option text) :=
  match (d <- strptime date_str fmt ;;
         if (year d <? 1950)%Z then replace_year d (year d + 100) else Ok d)
  with
  | Ok d => Ok (Some (strftime d))
  | Raise ValueError => Ok None
  | Raise e => Raise e
  end.

Fixpoint format_loop (date_str : text) (fmts : list text)
  : res (option text) :=
  match fmts with
  | [] => Ok None
  | f :: fs =>
      r <- try_format date_str f ;;
      match r with
      | Some out => Ok (Some out)
      | None => format_loop date_str fs
      end
  end.

(** [strptime(None, fmt)] is a [TypeError], which the loop does not catch. *)
Definition try_pattern (p : regex) (s : text) : res (option text) :=
  match re_search p s with
  | Some (_, (_, c)) =>
      match group "1" c with
      | Some date_str => format_loop date_str date_formats
      | None => Raise TypeError
      end
  | None => Ok None
  end.

Fixpoint pattern_loop (ps : list regex) (s : text) : res (option text) :=
  match ps with
  | [] => Ok None
  | p :: ps' =>
      r <- try_pattern p s ;;
      match r with
      | Some out => Ok (Some out)
      | None => pattern_loop ps' s
      end
  end.

(** [now] is the reading of [datetime.now()]. *)
Definition extract_date (now : date) (s : text) : res text :=
  r <- pattern_loop date_patterns s ;;
  match r with
  | Some out => Ok out
  | None => Ok (strftime now)
  end.

(* ------------------------------------------------------------------ *)
(** ** [categorize_expense] *)

(** The [categories] dict, in insertion order (the order [items()] yields). *)
Definition categories : list (text * list text) :=
  [ (txt "food",
     map txt ["restaurant"; "cafe"; "food"; "lunch"; "dinner"; "pizza";
              "burger"; "starbucks"; "mcdonald"; "subway"]%string);
    (txt "transport",
     map txt ["taxi"; "uber"; "bus"; "train"; "fuel"; "gas"; "parking";
              "metro"; "lyft"; "transport"]%string);
    (txt "office",
     map txt ["office"; "supplies"; "stationery"; "paper"; "computer";
              "software"; "staples"; "depot"]%string);
    (txt "travel",
     map txt ["hotel"; "flight"; "airline"; "accommodation"; "booking";
              "airbnb"; "expedia"; "marriott"]%string);
    (txt "healthcare",
     map txt ["pharmacy"; "medical"; "doctor"; "hospital"; "clinic"; "cvs";
              "walgreens"; "health"]%string) ].

(** [any(keyword in text_lower for keyword in keywords)] *)
Definition any_keyword (keywords : list text) (text_lower : text) : bool :=
  existsb (fun keyword => contains keyword text_lower) keywords.

Fixpoint first_category (cats : list (text * list text)) (text_lower : text)
  : text :=
  match cats with
  | [] => txt "other"
  | (category, keywords) :: cats' =>
      if any_keyword keywords text_lower then category
      else first_category cats' text_lower
  end.

Definition categorize_expense (s : text) : text :=
  first_category categories (lower s).

(* ------------------------------------------------------------------ *)
(** ** [extract_description] *)

Definition dot_dash_slash (c : ascii) : bool :=
  is_char "." c || is_char "-" c || is_char "/" c.

(** [^\d+[\.\-/]\d+] *)
Definition pat_datelike : regex :=
  Cat Bos (Cat digits1 (Cat (Chr dot_dash_slash) digits1)).

Definition is_some {A : Type} (o : option A) : bool :=
  match o with Some _ => true | None => false end.

(** [[line.strip() for line in text.split('\n') if line.strip()]] *)
Definition stripped_lines (s : text) : list text :=
  filter (fun l => negb (is_nil l)) (map strip (split NL s)).

Definition qualifies (line : text) : bool :=
  (5 <? length line) && negb (is_some (re_match pat_datelike line)).

(** [s3_key.split('/')[-1].replace('_', ' ')] *)
Definition filename_label (s3_key : text) : text :=
  replace_char "_" " " (last (split "/" s3_key) []).

Definition extract_description (s s3_key : text) : text :=
  match find qualifies (stripped_lines s) with
  | Some line => firstn 50 line
  | None => filename_label s3_key
  end.

(* ------------------------------------------------------------------ *)
(** ** Python values *)

(** The values a record or an event is made of.  Dicts are keyed by strings,
    as the dicts of the program and of JSON are, and keep their items in
    order; a float is an IEEE 754 value. *)
Unset Elimination Schemes.
Inductive pyval : Type :=
| PNone
| PBool (b : bool)
| PInt (z : Z)
| PFloat (f : spec_float)
| PStr (s : text)
| PDec (d : Decimal)
| PList (l : list pyval)
| PDict (kv : list (text * pyval)).
Set Elimination Schemes.

Fixpoint lookup (k : text) (kv : list (text * pyval)) : option pyval :=
  match kv with
  | [] => None
  | (k', v) :: kv' => if text_eqb k k' then Some v else lookup k kv'
  end.

(** [x == k] for a string [k] *)
Definition eq_str (k : text) (x : pyval) : bool :=
  match x with
  | PStr s => text_eqb k s
  | _ => false
  end.

(** [k in v] *)
Definition py_in (k : text) (v : pyval) : res bool :=
  match v with
  | PDict kv => Ok (is_some (lookup k kv))
  | PList l => Ok (existsb (eq_str k) l)
  | PStr s => Ok (contains k s)
  | _ => Raise TypeError
  end.

(** [v[k]] for a string [k] *)
Definition getitem (v : pyval) (k : text) : res pyval :=
  match v with
  | PDict kv =>
      match lookup k kv with
      | Some x => Ok x
      | None => Raise KeyError
      end
  | _ => Raise TypeError
  end.

(** [bool(v)] *)
Definition truthy (v : pyval) : bool :=
  match v with
  | PNone => false
  | PBool b => b
  | PInt z => negb (z =? 0)%Z
  | PFloat f => negb (SFeqb f (S754_zero false))
  | PStr s => negb (is_nil s)
  | PDec d => dec_truthy d
  | PList l => negb (is_nil l)
  | PDict kv => negb (is_nil kv)
  end.

(** [v <= 0] *)
Definition le_zero (v : pyval) : res bool :=
  match v with
  | PBool b => Ok (negb b)
  | PInt z => Ok (z <=? 0)%Z
  | PFloat f => Ok (SFleb f (S754_zero false))
  | PDec d => dec_le0 d
  | _ => Raise TypeError
  end.

(** [iter(v)] *)
Definition py_iter (v : pyval) : res (list pyval) :=
  match v with
  | PList l => Ok l
  | PDict kv => Ok (map (fun p => PStr (fst p)) kv)
  | PStr s => Ok (map (fun c => PStr [c]) s)
  | _ => Raise TypeError
  end.

(* ------------------------------------------------------------------ *)
(** ** [validate_expense_data] *)

Definition required_fields : list text :=
  map txt ["expense_id"; "amount"; "category"; "description"; "date"]%string.

(** The loop over the required fields: [false] is the early
    [return False]. *)
Fixpoint check_required (fields : list text) (expense_data : pyval)
  : res bool :=
  match fields with
  | [] => Ok true
  | field :: fields' =>
      present <- py_in field expense_data ;;
      if negb present then Ok false
      else
        v <- getitem expense_data field ;;
        if negb (truthy v) then Ok false
        else check_required fields' expense_data
  end.

(** [datetime.strptime(v, '%Y-%m-%d')] inside its own
    [try ... except ValueError]. *)
Definition check_date (v : pyval) : res bool :=
  match v with
  | PStr s =>
      match strptime s (txt "%Y-%m-%d") with
      | Ok _ => Ok true
      | Raise ValueError => Ok false
      | Raise e => Raise e
      end
  | _ => Raise TypeError
  end.

(** The body of the outer [try]. *)
Definition validate_body (expense_data : pyval) : res bool :=
  ok <- check_required required_fields expense_data ;;
  if negb ok then Ok false
  else
    amount <- getitem expense_data (txt "amount") ;;
    bad <- le_zero amount ;;
    if bad then Ok false
    else
      d <- getitem expense_data (txt "date") ;;
      check_date d.

(** With the outer [except Exception: return False]. *)
Definition validate_expense_data (expense_data : pyval) : res bool :=
  match validate_body expense_data with
  | Ok b => Ok b
  | Raise _ => Ok false
  end.

(* ------------------------------------------------------------------ *)
(** ** [extract_expense_info] *)

Definition hex_char (n : N) : ascii :=
  nth (N.to_nat n) (txt "0123456789abcdef") "0".

Fixpoint hex_digits (k : nat) (n : N) : text :=
  match k with
  | 0 => []
  | S k' => hex_digits k' (n / 16) ++ [hex_char (n mod 16)]
  end.

(** [uuid.uuid4()] from 128 random bits: the variant and version bits are
    set as [uuid.UUID(bytes=..., version=4)] sets them. *)
Definition uuid4 (random_bits : N) : N :=
  let i := N.land random_bits (N.ones 128) in
  let i := N.ldiff i (N.shiftl 0xc000 48) in
  let i := N.lor i (N.shiftl 0x8000 48) in
  let i := N.ldiff i (N.shiftl 0xf000 64) in
  N.lor i (N.shiftl 4 76).

(** [str(u)]: 8-4-4-4-12 hexadecimal digits. *)
Definition str_uuid (u : N) : text :=
  let h := hex_digits 32 u in
  firstn 8 h ++ "-" :: firstn 4 (skipn 8 h) ++ "-" :: firstn 4 (skipn 12 h)
    ++ "-" :: firstn 4 (skipn 16 h) ++ "-" :: skipn 20 h.

(** [random_bits] is what [uuid4] draws, [utcnow_iso] is
    [datetime.utcnow().isoformat()] and [now] is [datetime.now()]. *)
Definition extract_expense_info (random_bits : N) (utcnow_iso : text)
    (now : date) (s s3_key : text) : res pyval :=
  amount <- extract_amount s ;;
  let category := categorize_expense s in
  let description := extract_description s s3_key in
  expense_date <- extract_date now s ;;
  Ok (PDict
        [ (txt "expense_id", PStr (str_uuid (uuid4 random_bits)));
          (txt "amount", PDec amount);
          (txt "category", PStr category);
          (txt "description", PStr description);
          (txt "date", PStr expense_date);
          (txt "processed_at", PStr utcnow_iso);
          (txt "s3_key", PStr s3_key);
          (txt "raw_text", PStr (firstn 500 s)) ]).

(* ------------------------------------------------------------------ *)
(** ** [lambda_handler] *)

(** The collaborators.  [get_object bucket key] is
    [s3.get_object(...)['Body'].read().decode('utf-8')],
    [detect_document_text bucket key] the Textract response and [put_item]
    the DynamoDB write; each returns or raises.  The clock and the random
    source are read once per extraction, the [n]-th extraction reading them
    at index [n]. *)
Record env : Type := mkenv {
  init_services : res unit;
  get_object : pyval -> text -> res text;
  detect_document_text : pyval -> text -> res pyval;
  put_item : pyval -> res unit;
  urandom : nat -> N;
  utcnow : nat -> text;
  clock : nat -> date
}.

(** The handler's variables and the world it writes to: [key_var] is the
    local [key], unbound until a record has given one; [table] the items
    put so far; [extractions] the number of clock reads so far. *)
Record hstate : Type := mkstate {
  key_var : option pyval;
  processed_count : nat;
  table : list pyval;
  extractions : nat
}.

Definition M (A : Type) : Type := hstate -> res A * hstate.

Definition ret {A : Type} (a : A) : M A := fun st => (Ok a, st).

Definition lift {A : Type} (r : res A) : M A := fun st => (r, st).

Definition bindM {A B : Type} (m : M A) (f : A -> M B) : M B :=
  fun st =>
    match m st with
    | (Ok a, st') => f a st'
    | (Raise e, st') => (Raise e, st')
    end.

Notation "x <~ m ;; f" := (bindM m (fun x => f))
  (at level 61, m at next level, right associativity).

Definition set_key (k : pyval) : M unit :=
  fun st => (Ok tt, mkstate (Some k) (processed_count st) (table st)
                            (extractions st)).

Definition next_extraction : M nat :=
  fun st => (Ok (extractions st),
             mkstate (key_var st) (processed_count st) (table st)
                     (S (extractions st))).

(** [table.put_item(Item=item)] followed by [processed_count += 1] *)
Definition save (e : env) (item : pyval) : M unit :=
  fun st =>
    match put_item e item with
    | Ok _ => (Ok tt, mkstate (key_var st) (S (processed_count st))
                              (table st ++ [item]) (extractions st))
    | Raise x => (Raise x, st)
    end.

(** [key.lower()] *)
Definition str_lower (v : pyval) : res text :=
  match v with
  | PStr s => Ok (lower s)
  | _ => Raise AttributeError
  end.

Definition endswith_any (suffixes : list text) (s : text) : bool :=
  existsb (fun x => endswith x s) suffixes.

Definition document_suffixes : list text :=
  map txt [".txt"; ".text"; ".pdf"; ".jpg"; ".jpeg"; ".png"]%string.

Definition text_suffixes : list text := map txt [".txt"; ".text"]%string.

(** [[block['Text'] for block in blocks if block['BlockType'] == 'LINE']] *)
Fixpoint text_lines (blocks : list pyval) : res (list pyval) :=
  match blocks with
  | [] => Ok []
  | block :: blocks' =>
      ty <- getitem block (txt "BlockType") ;;
      if eq_str (txt "LINE") ty then
        t <- getitem block (txt "Text") ;;
        ts <- text_lines blocks' ;;
        Ok (t :: ts)
      else text_lines blocks'
  end.

(** [' '.join(items)] *)
Fixpoint join_space (items : list pyval) : res text :=
  match items with
  | [] => Ok []
  | PStr a :: items' =>
      match items' with
      | [] => Ok a
      | _ => r <- join_space items' ;; Ok (a ++ " " :: r)
      end
  | _ => Raise TypeError
  end.

Definition read_text (e : env) (bucket : pyval) (key : text) : res text :=
  if endswith_any text_suffixes (lower key) then get_object e bucket key
  else
    response <- detect_document_text e bucket key ;;
    blocks <- getitem response (txt "Blocks") ;;
    items <- py_iter blocks ;;
    lines <- text_lines items ;;
    join_space lines.

(** [record['s3']['bucket']['name']] *)
Definition bucket_of (record : pyval) : res pyval :=
  s3 <- getitem record (txt "s3") ;;
  b <- getitem s3 (txt "bucket") ;;
  getitem b (txt "name").

(** [record['s3']['object']['key']] *)
Definition key_of (record : pyval) : res pyval :=
  s3 <- getitem record (txt "s3") ;;
  o <- getitem s3 (txt "object") ;;
  getitem o (txt "key").

(** The body of the inner [try] for one record. *)
Definition process_record (e : env) (record : pyval) : M unit :=
  bucket <~ lift (bucket_of record) ;;
  key <~ lift (key_of record) ;;
  _ <~ set_key key ;;
  key_lower <~ lift (str_lower key) ;;
  if negb (endswith_any document_suffixes key_lower) then ret tt
  else
    match key with
    | PStr k =>
        full_text <~ lift (read_text e bucket k) ;;
        if is_nil (strip full_text) then ret tt
        else
          n <~ next_extraction ;;
          expense_data <~ lift (extract_expense_info (urandom e n)
                                  (utcnow e n) (clock e n) full_text k) ;;
          valid <~ lift (validate_expense_data expense_data) ;;
          if negb valid then ret tt
          else save e expense_data
    | _ => lift (Raise AttributeError)
    end.

(** The [for] loop.  The [except] clause of a record prints [key]: with
    [key] unbound that is a [NameError], raised outside the inner [try]. *)
Fixpoint records_loop (e : env) (records : list pyval) : M unit :=
  match records with
  | [] => ret tt
  | record :: records' =>
      fun st =>
        match process_record e record st with
        | (Ok _, st') => records_loop e records' st'
        | (Raise _, st') =>
            match key_var st' with
            | Some _ => records_loop e records' st'
            | None => (Raise NameError, st')
            end
        end
  end.

Inductive response : Type :=
| Status200 (processed : nat)
| Status400
| Status500.

Definition initial (tbl : list pyval) (n : nat) : hstate :=
  mkstate None 0 tbl n.

(** [tbl] is the table and [n] the number of clock reads before the call;
    the result is the response with the table and the count after it. *)
Definition lambda_handler (e : env) (event : pyval) (tbl : list pyval)
    (n : nat) : response * hstate :=
  match init_services e with
  | Raise _ => (Status500, initial tbl n)
  | Ok _ =>
      match py_in (txt "Records") event with
      | Raise _ => (Status500, initial tbl n)
      | Ok false => (Status400, initial tbl n)
      | Ok true =>
          match (rs <- getitem event (txt "Records") ;; py_iter rs) with
          | Raise _ => (Status500, initial tbl n)
          | Ok records =>
              match records_loop e records (initial tbl n) with
              | (Ok _, st) => (Status200 (processed_count st), st)
              | (Raise _, st) => (Status500, st)
              end
          end
      end
  end.

(* ------------------------------------------------------------------ *)
(** ** [upload_api.py] *)

Module UploadApi.

(** [v.get(k, default)] *)
Definition py_get (v : pyval) (k : text) (default : pyval) : res pyval :=
  match v with
  | PDict kv =>
      match lookup k kv with
      | Some x => Ok x
      | None => Ok default
      end
  | _ => Raise AttributeError
  end.

(** What [json.loads] makes of a body: a value, a [JSONDecodeError], or
    another exception. *)
Inductive json_result : Type :=
| JsonValue (v : pyval)
| JsonDecodeError
| JsonRaise (e : exn).

Definition bytes : Type := list Byte.byte.

(** [datetime.now()], to the second. *)
Record datetime : Type := mkdatetime {
  on : date; hour : Z; minute : Z; second : Z
}.

(** The arguments of one [s3_client.put_object] call. *)
Record s3_object : Type := mkobject {
  Bucket : text; Key : text; Body : bytes; ContentType : text
}.

(** The collaborators: [json.loads], [boto3.client('s3')], the clock,
    [base64.b64decode] and [put_object]; each returns or raises. *)
Record services : Type := mkservices {
  json_loads : pyval -> json_result;
  s3_client : res unit;
  now : datetime;
  b64decode : pyval -> res bytes;
  put_object : s3_object -> res unit
}.

(** The answers: 200 with an empty body, 200 with the key and the file
    name, 400 with one of five errors, 500 with one of two. *)
Inductive rejection : Type :=
| EmptyBody | InvalidJson | MissingFields | UnsupportedType | InvalidEncoding.

Inductive failure : Type := UploadFailed | RequestFailed.

Inductive response : Type :=
| Preflight
| Uploaded (s3_key filename : text)
| Rejected (why : rejection)
| Failed (why : failure).

(** [event.get('requestContext', {}).get('http', {}).get('method')
    == 'OPTIONS'] *)
Definition is_preflight (event : pyval) : res bool :=
  rc <- py_get event (txt "requestContext") (PDict []) ;;
  http <- py_get rc (txt "http") (PDict []) ;;
  method <- py_get http (txt "method") PNone ;;
  Ok (eq_str (txt "OPTIONS") method).

Definition allowed_extensions : list text :=
  map txt [".jpg"; ".jpeg"; ".png"; ".pdf"; ".txt"; ".text"]%string.

Definition content_types : list (text * text) :=
  [ (txt "jpg", txt "image/jpeg");
    (txt "jpeg", txt "image/jpeg");
    (txt "png", txt "image/png");
    (txt "pdf", txt "application/pdf");
    (txt "txt", txt "text/plain");
    (txt "text", txt "text/plain") ].

(** [content_types.get(extension, 'application/octet-stream')] *)
Definition content_type_of (extension : text) : text :=
  match find (fun p => text_eqb extension (fst p)) content_types with
  | Some p => snd p
  | None => txt "application/octet-stream"
  end.

Definition get_content_type (filename : text) : text :=
  let extension := last (split "." (lower filename)) [] in
  content_type_of extension.

(** [datetime.now().strftime('%Y%m%d_%H%M%S')] *)
Definition timestamp (t : datetime) : text :=
  str_int (year (on t)) ++ pad2 (month (on t)) ++ pad2 (day (on t))
    ++ "_" :: pad2 (hour t) ++ pad2 (minute t) ++ pad2 (second t).

(** [s.encode('utf-8')] on code points below 256: one byte below 128, two
    from there on. *)
Definition encode_utf8 (s : text) : bytes :=
  flat_map (fun c =>
              if code c <? 128 then [byte_of_ascii c]
              else [ byte_of_ascii (ascii_of_nat (192 + code c / 64));
                     byte_of_ascii (ascii_of_nat (128 + code c mod 64)) ])
           s.

(** The bytes to store: what [b64decode] gives or, when it raises, the
    UTF-8 bytes of a string that does not start with [data:]; [None] is
    the 400 answer. *)
Definition file_data_of (sv : services) (file_content : pyval)
  : option bytes :=
  match b64decode sv file_content with
  | Ok data => Some data
  | Raise _ =>
      match file_content with
      | PStr c =>
          if negb (startswith (txt "data:") c) then Some (encode_utf8 c)
          else None
      | _ => None
      end
  end.

Definition bucket_name : text := txt "expense-analyzer-documents".

(** ['filename' not in body or 'content' not in body] *)
Definition missing_fields (body : pyval) : res bool :=
  has_name <- py_in (txt "filename") body ;;
  if negb has_name then Ok true
  else
    has_content <- py_in (txt "content") body ;;
    Ok (negb has_content).

(** The body of the outer [try]: the answer and the objects put. *)
Definition upload (sv : services) (event : pyval)
  : res (response * list s3_object) :=
  raw_body <- py_get event (txt "body") (PStr []) ;;
  if negb (truthy raw_body) then Ok (Rejected EmptyBody, [])
  else
    match json_loads sv raw_body with
    | JsonDecodeError => Ok (Rejected InvalidJson, [])
    | JsonRaise e => Raise e
    | JsonValue body =>
        missing <- missing_fields body ;;
        if missing then Ok (Rejected MissingFields, [])
        else
          filename <- getitem body (txt "filename") ;;
          file_content <- getitem body (txt "content") ;;
          name_lower <- str_lower filename ;;
          if negb (endswith_any allowed_extensions name_lower)
          then Ok (Rejected UnsupportedType, [])
          else
            _ <- s3_client sv ;;
            match filename with
            | PStr name =>
                let s3_key :=
                  txt "uploads/" ++ timestamp (now sv) ++ "_" :: name in
                match file_data_of sv file_content with
                | None => Ok (Rejected InvalidEncoding, [])
                | Some file_data =>
                    let object := mkobject bucket_name s3_key file_data
                                           (get_content_type name) in
                    match put_object sv object with
                    | Ok _ => Ok (Uploaded s3_key name, [object])
                    | Raise _ => Ok (Failed UploadFailed, [])
                    end
                end
            | _ => Raise AttributeError
            end
    end.

(** The preflight test runs outside the [try]; whatever the body raises
    is answered 500. *)
Definition lambda_handler (sv : services) (event : pyval)
  : res (response * list s3_object) :=
  preflight <- is_preflight event ;;
  if preflight then Ok (Preflight, [])
  else
    match upload sv event with
    | Ok r => Ok r
    | Raise _ => Ok (Failed RequestFailed, [])
    end.

End UploadApi.

(* ================================================================== *)
(** * Vocabulary of the properties *)

(** ** Groups of a match *)

(** Group [g] is set in [c]. *)
Definition has (g : ascii) (c : caps) : Prop := is_some (group g c) = true.

(** A continuation that keeps a set group set, one that always ends with
    the group set, and one that leaves an unset group unset. *)
Definition keeps (g : ascii) (k : cont) : Prop :=
  forall j s c r, has g c -> k j s c = Some r -> has g (snd r).

Definition closes (g : ascii) (k : cont) : Prop :=
  forall j s c r, k j s c = Some r -> has g (snd r).

Definition lacks (g : ascii) (k : cont) : Prop :=
  forall j s c r, group g c = None -> k j s c = Some r -> group g (snd r) = None.

(** The expression has group [g] on every path. *)
Fixpoint sets (g : ascii) (r : regex) : bool :=
  match r with
  | Cat a b => sets g a || sets g b
  | Alt a b => sets g a && sets g b
  | Grp g' a => Ascii.eqb g g' || sets g a
  | _ => false
  end.

(** The expression has group [g] somewhere. *)
Fixpoint mentions (g : ascii) (r : regex) : bool :=
  match r with
  | Cat a b | Alt a b => mentions g a || mentions g b
  | Opt a | Ahead a => mentions g a
  | Grp g' a => Ascii.eqb g g' || mentions g a
  | _ => false
  end.

(** The expression has no group and consumes characters of [P] only. *)
Fixpoint within (P : ascii -> bool) (r : regex) : Prop :=
  match r with
  | Chr p | Star p => forall x, p x = true -> P x = true
  | Cat a b | Alt a b => within P a /\ within P b
  | Opt a => within P a
  | Grp _ _ => False
  | _ => True
  end.

(** Every group of the expression is named [g] and is [within P]. *)
Fixpoint groups_within (g : ascii) (P : ascii -> bool) (r : regex) : Prop :=
  match r with
  | Cat a b | Alt a b => groups_within g P a /\ groups_within g P b
  | Opt a => groups_within g P a
  | Grp g' a => g' = g /\ within P a
  | _ => True
  end.

(** Group [g], when set in [c], holds characters of [P] only. *)
Definition holds (g : ascii) (P : ascii -> bool) (c : caps) : Prop :=
  forall v, group g c = Some v -> forallb P v = true.

Definition digit_or_dot (c : ascii) : bool := is_digit c || is_char "." c.

(** ** Dates *)

(** The shape [YYYY-MM-DD]: four digits, a dash, two digits, a dash, two
    digits. *)
Definition is_iso_shape (s : text) : bool :=
  match s with
  | [y1; y2; y3; y4; h1; m1; m2; h2; d1; d2] =>
      forallb is_digit [y1; y2; y3; y4; m1; m2; d1; d2] &&
      is_char "-" h1 && is_char "-" h2
  | _ => false
  end.

(** What a date loop returns, if anything, is a calendar date as
    [strftime] prints it. *)
Definition printed (o : option text) : Prop :=
  forall out, o = Some out -> exists d, valid_date d = true /\ out = strftime d.





(** ** Records *)

(** The three checks as the specification words them, read off a record:
    a required field is absent or empty, *)
Definition absent_or_empty (kv : list (text * pyval)) (field : text) : bool :=
  match lookup field kv with
  | None => true
  | Some v => negb (truthy v)
  end.






(** The record of [test_validation], with its amount and date left open. *)
Definition sample_record (amount : Decimal) (d : text) : list (text * pyval) :=
  [ (txt "expense_id", PStr (txt "test-123"));
    (txt "amount", PDec amount);
    (txt "category", PStr (txt "food"));
    (txt "description", PStr (txt "Coffee Shop"));
    (txt "date", PStr d) ].

(** A key whose file name is 62 characters long. *)
Definition long_key : text :=
  txt "uploads/20240115_103000_quarterly_team_offsite_dinner_receipt_scan.jpg".

(** ** Batches *)

(** An S3 record: a dict with a string under [s3.bucket.name] and
    [s3.object.key]. *)
Definition s3_record (bucket key : text) : pyval :=
  PDict [ (txt "s3",
           PDict [ (txt "bucket", PDict [ (txt "name", PStr bucket) ]);
                   (txt "object", PDict [ (txt "key", PStr key) ]) ]) ].

Definition s3_event (records : list pyval) : pyval :=
  PDict [ (txt "Records", PList records) ].

(** The record gives a bucket name and a key. *)
Definition has_key (record : pyval) : bool :=
  match bucket_of record, key_of record with
  | Ok _, Ok _ => true
  | _, _ => false
  end.

(** The record's key is a string that ends with none of the six document
    suffixes, whatever its case. *)
Definition unsupported (record : pyval) : bool :=
  match key_of record with
  | Ok (PStr k) => negb (endswith_any document_suffixes (lower k))
  | _ => false
  end.

(** The handler's state after one record, whatever the record did. *)
Definition step (e : env) (record : pyval) (st : hstate) : hstate :=
  snd (process_record e record st).

(** A collaborator set for examples: every text object holds a two-line
    receipt, Textract is down, and every write succeeds. *)
Definition sample_env : env :=
  mkenv (Ok tt)
        (fun _ _ => Ok (txt "Starbucks Coffee" ++ NL :: txt "Total: $4.85"))
        (fun _ _ => Raise ServiceError)
        (fun _ => Ok tt)
        (fun n => N.of_nat n)
        (fun _ => txt "2026-11-04T10:02:00")
        (fun _ => mkdate 2026 11 4).

Definition sample_batch : list pyval :=
  [ s3_record (txt "uploads") (txt "notes.docx");
    s3_record (txt "uploads") (txt "scan.PDF");
    s3_record (txt "uploads") (txt "receipt.txt") ].

(** ** The strings of an expression *)

(** The strings an expression consumes, anchors and lookaheads aside. *)
Fixpoint lang (r : regex) (w : text) : Prop :=
  match r with
  | Eps | Bos | Eos | Ahead _ => w = []
  | Chr p => exists x, w = [x] /\ p x = true
  | Cat a b => exists w1 w2, w = w1 ++ w2 /\ lang a w1 /\ lang b w2
  | Alt a b => lang a w \/ lang b w
  | Opt a => w = [] \/ lang a w
  | Star p => forallb p w = true
  | Grp _ a => lang a w
  end.

(** Group [g], when set in [c], holds a string of [Q]. *)
Definition group_in (g : ascii) (Q : text -> Prop) (c : caps) : Prop :=
  forall v, group g c = Some v -> Q v.

(** Every group [g] of the expression, lookaheads aside, has a body whose
    strings are in [Q]. *)
Fixpoint grouped (g : ascii) (Q : text -> Prop) (r : regex) : Prop :=
  match r with
  | Cat a b | Alt a b => grouped g Q a /\ grouped g Q b
  | Opt a => grouped g Q a
  | Grp g' a => g' = g /\ forall w, lang a w -> Q w
  | _ => True
  end.

(** A number as the amount patterns write it: digits, then nothing or a dot
    and two digits. *)
Definition money_text (w : text) : Prop :=
  exists X frac,
    w = X ++ frac /\ X <> [] /\ forallb is_digit X = true /\
    (frac = [] \/
     exists d1 d2, frac = ["."; d1; d2] /\
                   is_digit d1 = true /\ is_digit d2 = true).

(** ** Categories *)

(** The place of a category in the order of the table; [other] comes
    last. *)
Definition category_rank (category : text) : nat :=
  if text_eqb category (txt "food") then 0
  else if text_eqb category (txt "transport") then 1
  else if text_eqb category (txt "office") then 2
  else if text_eqb category (txt "travel") then 3
  else if text_eqb category (txt "healthcare") then 4
  else 5.

(** Every character. *)
Definition all_chars : list ascii := map ascii_of_nat (seq 0 256).

(** [c] is the letter [k], small as [k] is or capital. *)
Definition same_letter (c k : ascii) : bool :=
  Ascii.eqb c k || (between 65 90 c && (code c + 32 =? code k)).

(** The keyword stands somewhere in the text, whatever the case of the
    letters there. *)
Definition occurs_nocase (keyword s : text) : Prop :=
  exists pre mid post,
    s = pre ++ mid ++ post /\
    Forall2 (fun c k => same_letter c k = true) mid keyword.

(** Two texts that differ in the case of their letters only. *)
Definition same_nocase (a b : text) : Prop :=
  Forall2 (fun x y => same_letter x y = true \/ same_letter y x = true) a b.

(** A keyword of the category occurs in the text. *)
Definition category_occurs (c : text * list text) (s : text) : Prop :=
  exists keyword, In keyword (snd c) /\ occurs_nocase keyword s.

(** ** What the handler writes *)

(** An item as the handler stores it: accepted by the validator and by
    the table, under a supported key, with at most 500 characters of raw
    text. *)
Definition stored_item (e : env) (item : pyval) : Prop :=
  validate_expense_data item = Ok true /\
  put_item e item = Ok tt /\
  exists k raw,
    getitem item (txt "s3_key") = Ok (PStr k) /\
    endswith_any document_suffixes (lower k) = true /\
    getitem item (txt "raw_text") = Ok (PStr raw) /\
    length raw <= 500.

(** What a run added to a state: items appended to the table, each
    counted once and each extracted on a clock read of its own. *)
Definition grows_by (e : env) (st st' : hstate) (added : list pyval) : Prop :=
  table st' = table st ++ added /\
  processed_count st' = processed_count st + length added /\
  extractions st + length added <= extractions st' /\
  Forall (stored_item e) added.

(** ** Uploads *)

(** A time of day on a calendar date. *)
Definition valid_datetime (t : UploadApi.datetime) : bool :=
  valid_date (UploadApi.on t) &&
  (0 <=? UploadApi.hour t)%Z && (UploadApi.hour t <=? 23)%Z &&
  (0 <=? UploadApi.minute t)%Z && (UploadApi.minute t <=? 59)%Z &&
  (0 <=? UploadApi.second t)%Z && (UploadApi.second t <=? 59)%Z.

(** Upload collaborators for examples: the body is already the parsed
    value, base64 decoding fails and every write succeeds. *)
Definition sample_services : UploadApi.services :=
  UploadApi.mkservices
    (fun raw => UploadApi.JsonValue
                  (PDict [ (txt "filename", PStr (txt "Lunch_Receipt.JPG"));
                           (txt "content", PStr (txt "Total: $4.85")) ]))
    (Ok tt)
    (UploadApi.mkdatetime (mkdate 2024 1 15) 10 30 0)
    (fun _ => Raise ValueError)
    (fun _ => Ok tt).

Definition sample_upload : pyval :=
  PDict [ (txt "body", PStr (txt "{...}")) ].

Definition sample_key : text :=
  txt "uploads/20240115_103000_Lunch_Receipt.JPG".

(* ================================================================== *)
(** * Properties *)

(** ** Lists *)

Lemma firstn_exact {A : Type} (a b : list A) (n : nat) :
  n = length a -> firstn n (a ++ b) = a.
Proof.
  intros ->. rewrite firstn_app, Nat.sub_diag, firstn_all. simpl.
  apply app_nil_r.
Qed.

(** ** The matcher *)

(** A greedy class that runs into a character outside it, or into the
    end, and finds the rest matching there. *)
Lemma star_greedy (p : ascii -> bool) (k : cont) (c : caps) (r : nat * caps) :
  forall (run_ : text) (rest_ : text) (i : nat),
    forallb p run_ = true ->
    match rest_ with [] => True | x :: _ => p x = false end ->
    k (i + length run_) rest_ c = Some r ->
    star p k i (run_ ++ rest_) c = Some r.
Proof.
  induction run_ as [|a t IH]; intros rest_ i Hall Hstop Hk; simpl in *.
  - rewrite Nat.add_0_r in Hk.
    destruct rest_ as [|x u]; simpl; [exact Hk|].
    rewrite Hstop. exact Hk.
  - apply andb_true_iff in Hall as [Ha Ht]. rewrite Ha.
    rewrite (IH rest_ (S i) Ht Hstop); [reflexivity|].
    replace (S i + length t) with (i + S (length t)) by lia. exact Hk.
Qed.

Lemma search_from_found (r : regex) :
  forall (s : text) (i j : nat) (m : nat * caps),
    search_from r i s = Some (j, m) ->
    i <= j /\ j - i <= length s /\
    run r accept j (skipn (j - i) s) [] = Some m.
Proof.
  induction s as [|x t IH]; intros i j m H; simpl in H.
  - destruct (run r accept i [] []) eqn:E; [|discriminate].
    inversion H; subst. rewrite Nat.sub_diag. simpl. auto.
  - destruct (run r accept i (x :: t) []) eqn:E.
    + inversion H; subst. rewrite Nat.sub_diag. simpl. auto with arith.
    + apply IH in H as (H1 & H2 & H3).
      replace (j - i) with (S (j - S i)) by lia. simpl. repeat split; try lia.
      exact H3.
Qed.

Lemma search_from_none (r : regex) :
  forall (s : text) (i : nat),
    search_from r i s = None -> run r accept i s [] = None.
Proof.
  intros s i H. destruct s; simpl in H;
    destruct (run r accept i _ []); congruence.
Qed.

Lemma has_cons (g g' : ascii) (v : text) (c : caps) :
  has g c -> has g ((g', v) :: c).
Proof. unfold has; simpl. destruct (Ascii.eqb g g'); auto. Qed.

Lemma has_same (g : ascii) (v : text) (c : caps) : has g ((g, v) :: c).
Proof. unfold has; simpl. now rewrite Ascii.eqb_refl. Qed.

Lemma star_passes (p : ascii -> bool) (k : cont) :
  forall s i c r,
    star p k i s c = Some r -> exists j s', k j s' c = Some r.
Proof.
  induction s as [|x t IH]; intros i c r H; simpl in H; eauto.
  destruct (p x); eauto.
  destruct (star p k (S i) t c) eqn:E; eauto.
  inversion H; subst. eauto.
Qed.

Lemma run_keeps (g : ascii) (r : regex) :
  forall k, keeps g k -> keeps g (run r k).
Proof.
  induction r; intros k Hk j s c res Hc H; simpl in H.
  - eauto.
  - destruct s; [discriminate|]. destruct (p a); [eauto|discriminate].
  - eapply IHr1; [apply IHr2; eassumption | eassumption | eassumption].
  - destruct (run r1 k j s c) eqn:E.
    + inversion H; subst. eapply IHr1; eassumption.
    + eapply IHr2; eassumption.
  - destruct (run r k j s c) eqn:E.
    + inversion H; subst. eapply IHr; eassumption.
    + eauto.
  - apply star_passes in H as (j' & s' & H). eauto.
  - eapply IHr; [| eassumption | eassumption].
    intros j' s' c' r' Hc' H'. eapply Hk; [|eassumption].
    now apply has_cons.
  - destruct (j =? 0); [eauto|discriminate].
  - destruct s as [|x [|y t]]; [eauto| |discriminate].
    destruct (Ascii.eqb x "010"); [eauto|discriminate].
  - destruct (run r accept j s c); [eauto|discriminate].
Qed.

Lemma run_passes (g : ascii) (r : regex) :
  forall k, closes g k -> closes g (run r k).
Proof.
  induction r; intros k Hk j s c res H; simpl in H.
  - eauto.
  - destruct s; [discriminate|]. destruct (p a); [eauto|discriminate].
  - eapply IHr1; [apply IHr2; eassumption | eassumption].
  - destruct (run r1 k j s c) eqn:E.
    + inversion H; subst. eapply IHr1; eassumption.
    + eapply IHr2; eassumption.
  - destruct (run r k j s c) eqn:E.
    + inversion H; subst. eapply IHr; eassumption.
    + eauto.
  - apply star_passes in H as (j' & s' & H). eauto.
  - eapply IHr; [| eassumption].
    intros j' s' c' r' H'. eapply Hk; eassumption.
  - destruct (j =? 0); [eauto|discriminate].
  - destruct s as [|x [|y t]]; [eauto| |discriminate].
    destruct (Ascii.eqb x "010"); [eauto|discriminate].
  - destruct (run r accept j s c); [eauto|discriminate].
Qed.

Lemma run_sets (g : ascii) (r : regex) :
  sets g r = true -> forall k, keeps g k -> closes g (run r k).
Proof.
  induction r; intros Hs k Hk; simpl in Hs; try discriminate.
  - apply orb_true_iff in Hs as [Hs|Hs]; simpl.
    + apply IHr1; [exact Hs|]. now apply run_keeps.
    + apply run_passes. now apply IHr2.
  - apply andb_true_iff in Hs as [H1 H2].
    intros j s c res H; simpl in H.
    destruct (run r1 k j s c) eqn:E.
    + inversion H; subst. eapply IHr1; eassumption.
    + eapply IHr2; eassumption.
  - apply orb_true_iff in Hs as [Hs|Hs]; simpl.
    + apply Ascii.eqb_eq in Hs; subst g0.
      intros j s c res H. eapply run_passes; [|exact H].
      intros j' s' c' r' H'. eapply Hk; [|exact H']. apply has_same.
    + intros j s c res H. eapply IHr; [exact Hs | | exact H].
      intros j' s' c' r' Hc' H'. eapply Hk; [|exact H'].
      now apply has_cons.
Qed.

Lemma keeps_accept (g : ascii) : keeps g accept.
Proof. intros j s c r Hc H. inversion H; subst. exact Hc. Qed.

(** A match of an expression that has group [g] on every path has [g]. *)
Lemma search_sets (g : ascii) (r : regex) (s : text) i j e c :
  sets g r = true ->
  search_from r i s = Some (j, (e, c)) ->
  exists v, group g c = Some v.
Proof.
  intros Hs H. apply search_from_found in H as (_ & _ & H).
  apply (run_sets g r Hs accept (keeps_accept g)) in H. unfold has in H; simpl in H.
  destruct (group g c); [eauto|discriminate].
Qed.


Lemma star_trace (P p : ascii -> bool) (k : cont) (c : caps) :
  (forall x, p x = true -> P x = true) ->
  forall s i res,
    star p k i s c = Some res ->
    exists w s', s = w ++ s' /\ forallb P w = true /\
                 k (i + length w) s' c = Some res.
Proof.
  intros Hp. induction s as [|x t IH]; intros i res H; simpl in H.
  - exists [], []. rewrite Nat.add_0_r. auto.
  - assert (Hhere : k i (x :: t) c = Some res ->
                    exists w s', x :: t = w ++ s' /\ forallb P w = true /\
                                 k (i + length w) s' c = Some res).
    { intros Hk. exists [], (x :: t). rewrite Nat.add_0_r. auto. }
    destruct (p x) eqn:Ex; [|auto].
    destruct (star p k (S i) t c) as [r'|] eqn:E; [|auto].
    inversion H; subst r'. apply IH in E as (w & s' & -> & Hw & Hk).
    exists (x :: w), s'. simpl. rewrite (Hp x Ex), Hw.
    replace (i + S (length w)) with (S i + length w) by lia. auto.
Qed.

(** What a group-free expression consumes before it continues. *)
Lemma run_trace (P : ascii -> bool) (r : regex) :
  within P r ->
  forall k i s c res,
    run r k i s c = Some res ->
    exists w s', s = w ++ s' /\ forallb P w = true /\
                 k (i + length w) s' c = Some res.
Proof.
  induction r; intros Hr k i s c res H; simpl in H, Hr.
  - exists [], s. rewrite Nat.add_0_r. auto.
  - destruct s as [|x t]; [discriminate|].
    destruct (p x) eqn:Ex; [|discriminate].
    exists [x], t. simpl. rewrite (Hr x Ex).
    replace (i + 1) with (S i) by lia. auto.
  - destruct Hr as [H1 H2].
    apply (IHr1 H1) in H as (w1 & s1 & -> & Hw1 & H).
    apply (IHr2 H2) in H as (w2 & s2 & -> & Hw2 & H).
    exists (w1 ++ w2), s2. rewrite <- app_assoc, forallb_app, Hw1, Hw2.
    rewrite length_app, Nat.add_assoc. auto.
  - destruct Hr as [H1 H2].
    destruct (run r1 k i s c) eqn:E.
    + inversion H; subst. eapply IHr1; eassumption.
    + eapply IHr2; eassumption.
  - destruct (run r k i s c) eqn:E.
    + inversion H; subst. eapply IHr; eassumption.
    + exists [], s. rewrite Nat.add_0_r. auto.
  - eapply star_trace; eassumption.
  - contradiction.
  - destruct (i =? 0); [|discriminate].
    exists [], s. rewrite Nat.add_0_r. auto.
  - exists [], s. rewrite Nat.add_0_r.
    destruct s as [|x [|y t]]; [auto| |discriminate].
    destruct (Ascii.eqb x "010"); [auto|discriminate].
  - destruct (run r accept i s c); [|discriminate].
    exists [], s. rewrite Nat.add_0_r. auto.
Qed.

Lemma holds_cons (g : ascii) (P : ascii -> bool) (v : text) (c : caps) :
  forallb P v = true -> holds g P c -> holds g P ((g, v) :: c).
Proof.
  intros Hv Hc u. simpl. rewrite Ascii.eqb_refl. intros H.
  inversion H; subst. exact Hv.
Qed.

(** A group whose body consumes characters of [P] only holds such
    characters in every match. *)
Lemma run_holds (g : ascii) (P : ascii -> bool) (r : regex) :
  groups_within g P r ->
  forall k,
    (forall j s c res, holds g P c -> k j s c = Some res ->
                       holds g P (snd res)) ->
    forall j s c res, holds g P c -> run r k j s c = Some res ->
                      holds g P (snd res).
Proof.
  induction r; intros Hr k Hk j s c res Hc H; simpl in H, Hr.
  - eauto.
  - destruct s; [discriminate|]. destruct (p a); [eauto|discriminate].
  - destruct Hr as [H1 H2].
    eapply (IHr1 H1); [|eassumption|eassumption].
    intros; eapply (IHr2 H2); eassumption.
  - destruct Hr as [H1 H2].
    destruct (run r1 k j s c) eqn:E.
    + inversion H; subst. eapply IHr1; eassumption.
    + eapply IHr2; eassumption.
  - destruct (run r k j s c) eqn:E.
    + inversion H; subst. eapply IHr; eassumption.
    + eauto.
  - apply star_passes in H as (j' & s' & H). eauto.
  - destruct Hr as [-> Hin].
    apply (run_trace P r Hin) in H as (w & s' & -> & Hw & H).
    eapply Hk; [|exact H]. apply holds_cons; [|exact Hc].
    rewrite firstn_exact; [exact Hw | lia].
  - destruct (j =? 0); [eauto|discriminate].
  - destruct s as [|x [|y t]]; [eauto| |discriminate].
    destruct (Ascii.eqb x "010"); [eauto|discriminate].
  - destruct (run r accept j s c); [eauto|discriminate].
Qed.

(** ** Amount extraction *)

#[local] Arguments Nat.sub : simpl never.
#[local] Arguments firstn : simpl never.

(** At an occurrence of [Total: $X.XX] the Total rule matches and its group
    is [X.XX]. *)
Lemma total_at (X post : text) (d1 d2 : ascii) (i : nat) :
  X <> [] -> forallb is_digit X = true ->
  is_digit d1 = true -> is_digit d2 = true ->
  run pat_total accept i (txt "Total: $" ++ X ++ "." :: d1 :: d2 :: post) []
  = Some (i + 8 + length X + 3, [("1", X ++ ["."; d1; d2])]).
Proof.
  intros HX Hd H1 H2.
  destruct X as [|x0 X']; [congruence|]. simpl in Hd.
  apply andb_true_iff in Hd as [Hx0 HX'].
  unfold pat_total, money, digits1, digits2. simpl.
  rewrite Hx0.
  match goal with
  | |- context [star is_digit ?k ?n (X' ++ ?rest) []] =>
      rewrite (star_greedy is_digit k []
                 (i + 8 + length (x0 :: X') + 3,
                  [("1", (x0 :: X') ++ ["."; d1; d2])]) X' rest n HX')
  end.
  - reflexivity.
  - reflexivity.
  - simpl. rewrite H1, H2. unfold accept. f_equal. f_equal; [lia|].
    f_equal. f_equal.
    replace (x0 :: X' ++ "." :: d1 :: d2 :: post)
      with ((x0 :: X' ++ ["."; d1; d2]) ++ post)
      by (simpl; now rewrite <- app_assoc).
    apply firstn_exact. simpl. rewrite length_app. simpl. lia.
Qed.

Lemma digit_is_not (c x : ascii) :
  is_digit c = true -> is_digit x = false -> Ascii.eqb c x = false.
Proof.
  intros Hc Hx. destruct (Ascii.eqb c x) eqn:E; [|reflexivity].
  apply Ascii.eqb_eq in E. subst. congruence.
Qed.

Lemma take_digits_app (a r : text) :
  forallb is_digit a = true -> take_digits (a ++ r) = a ++ take_digits r.
Proof.
  induction a as [|x t IH]; simpl; intros H; [reflexivity|].
  apply andb_true_iff in H as [Hx Ht]. rewrite Hx. f_equal. auto.
Qed.

Lemma drop_digits_app (a r : text) :
  forallb is_digit a = true -> drop_digits (a ++ r) = drop_digits r.
Proof.
  induction a as [|x t IH]; simpl; intros H; [reflexivity|].
  apply andb_true_iff in H as [Hx Ht]. rewrite Hx. auto.
Qed.

(** [Decimal('X.XX')] is the decimal with the digits of [X.XX] and
    exponent -2. *)
Lemma parse_capture (X : text) (d1 d2 : ascii) :
  X <> [] -> forallb is_digit X = true ->
  is_digit d1 = true -> is_digit d2 = true ->
  Decimal_of_str (X ++ ["."; d1; d2])
  = Ok (DFin false (coef_of (X ++ [d1; d2])) (-2)).
Proof.
  intros HX Hd H1 H2. unfold Decimal_of_str.
  destruct X as [|x0 X']; [congruence|].
  pose proof Hd as Hd'. simpl in Hd'.
  apply andb_true_iff in Hd' as [Hx0 _].
  change ((x0 :: X') ++ ["."; d1; d2]) with (x0 :: (X' ++ ["."; d1; d2])).
  cbv iota beta.
  rewrite (digit_is_not x0 "-" Hx0 eq_refl), (digit_is_not x0 "+" Hx0 eq_refl).
  change (x0 :: (X' ++ ["."; d1; d2])) with ((x0 :: X') ++ ["."; d1; d2]).
  rewrite take_digits_app, drop_digits_app by exact Hd.
  do 3 (simpl drop_digits; simpl take_digits; cbv iota beta;
        rewrite ?H1, ?H2).
  rewrite app_nil_r. reflexivity.
Qed.

Lemma Decimal_of_str_raises (s : text) (e : exn) :
  Decimal_of_str s = Raise e -> e = InvalidOperation.
Proof.
  unfold Decimal_of_str.
  destruct (match s with
            | [] => (false, s)
            | c :: r =>
                if Ascii.eqb c "-" then (true, r)
                else if Ascii.eqb c "+" then (false, r) else (false, s)
            end) as [neg s1].
  destruct (drop_digits s1) as [|c r2].
  - destruct (is_nil (take_digits s1)); congruence.
  - destruct (Ascii.eqb c "." && is_nil (drop_digits r2) &&
              negb (is_nil (take_digits s1 ++ take_digits r2))); congruence.
Qed.

Lemma dec_gt0_raises (d : Decimal) (e : exn) :
  dec_gt0 d = Raise e -> e = InvalidOperation.
Proof. destruct d; simpl; congruence. Qed.

Lemma le0_not_gt0 (d : Decimal) : dec_le0 d = Ok true -> dec_gt0 d = Ok false.
Proof.
  destruct d as [neg coef ex|neg|]; simpl; intros H; inversion H as [H'].
  - f_equal. destruct neg; simpl in *; [reflexivity|].
    apply N.eqb_eq in H'. subst. reflexivity.
  - subst. reflexivity.
Qed.

(** One pattern of the amount loop never raises. *)
Lemma try_amount_total (p : regex) (s : text) :
  sets "1" p = true -> exists o, try_amount p s = Ok o.
Proof.
  intros Hs. unfold try_amount, re_search.
  destruct (search_from p 0 s) as [[j [e c]]|] eqn:E; [|eauto].
  destruct (search_sets "1" p s 0 j e c Hs E) as [v Hv]. rewrite Hv. simpl.
  destruct (Decimal_of_str v) as [d|x] eqn:Ed; simpl.
  - destruct (dec_gt0 d) as [[|]|x] eqn:Eg; simpl; eauto.
    apply dec_gt0_raises in Eg. subst. eauto.
  - apply Decimal_of_str_raises in Ed. subst. eauto.
Qed.

Lemma amount_patterns_set :
  forall p, In p amount_patterns -> sets "1" p = true.
Proof. intros p [<-|[<-|[<-|[<-|[]]]]]; reflexivity. Qed.

(** A pattern whose capture is not above zero sends the loop on. *)
Lemma try_amount_miss (p : regex) (s : text) :
  sets "1" p = true ->
  (forall cap d, search_group1 p s = Some cap ->
                 Decimal_of_str cap = Ok d -> dec_le0 d = Ok true) ->
  try_amount p s = Ok None.
Proof.
  intros Hs H. unfold try_amount. unfold search_group1 in H.
  unfold re_search in *.
  destruct (search_from p 0 s) as [[j [e c]]|] eqn:E; [|reflexivity].
  destruct (search_sets "1" p s 0 j e c Hs E) as [v Hv]. rewrite Hv. simpl.
  destruct (Decimal_of_str v) as [d|x] eqn:Ed; simpl.
  - rewrite (le0_not_gt0 d (H v d Hv Ed)). reflexivity.
  - apply Decimal_of_str_raises in Ed. subst. reflexivity.
Qed.

Lemma extract_amount_total (s : text) : exists d, extract_amount s = Ok d.
Proof.
  unfold extract_amount. generalize zero_amount.
  pose proof amount_patterns_set as Hset.
  induction amount_patterns as [|p ps IH]; intros a; simpl; [eauto|].
  destruct (try_amount_total p s) as [o Ho]; [apply Hset; now left|].
  rewrite Ho. simpl. destruct o; [eauto|].
  apply IH. intros q Hq. apply Hset. now right.
Qed.

(** What an amount pattern captures is made of digits and dots. *)
Lemma capture_plain (p : regex) (s cap : text) :
  In p amount_patterns -> search_group1 p s = Some cap ->
  forallb digit_or_dot cap = true.
Proof.
  intros Hp. unfold search_group1, re_search.
  destruct (search_from p 0 s) as [[j [e c]]|] eqn:E; [|discriminate].
  apply search_from_found in E as (_ & _ & E). intros Hc.
  assert (Hg : groups_within "1" digit_or_dot p).
  { unfold digit_or_dot.
    destruct Hp as [<-|[<-|[<-|[<-|[]]]]]; simpl; repeat split; auto;
      intros x Hx; rewrite Hx; auto using orb_true_r. }
  eapply (run_holds "1" digit_or_dot p Hg accept) in E.
  - apply E. exact Hc.
  - intros j' s' c' r' Hc' H'. inversion H'; subst. exact Hc'.
  - intros v Hv. discriminate.
Qed.

(** C1, as the code has it: the Total rule is the first of the list, and
    when its leftmost match (case-insensitive) is at an occurrence of
    [Total: $X.XX] whose value is above zero, the amount is exactly [X.XX],
    whatever rules come after it. *)
Theorem total_rule_first (pre X post : text) (d1 d2 : ascii) :
  let s := pre ++ txt "Total: $" ++ X ++ "." :: d1 :: d2 :: post in
  let amount := DFin false (coef_of (X ++ [d1; d2])) (-2) in
  X <> [] -> forallb is_digit X = true ->
  is_digit d1 = true -> is_digit d2 = true ->
  dec_gt0 amount = Ok true ->
  option_map fst (re_search pat_total s) = Some (length pre) ->
  amount_patterns = pat_total :: [pat_amount; pat_dollar; pat_bare] /\
  extract_amount s = Ok amount /\
  forall later, amount_loop (pat_total :: later) s zero_amount = Ok amount.
Proof.
  intros s amount HX Hd H1 H2 Hpos Hleft.
  assert (Htry : try_amount pat_total s = Ok (Some amount)).
  { unfold try_amount. unfold re_search in *.
    destruct (search_from pat_total 0 s) as [[j m]|] eqn:E; [|discriminate].
    simpl in Hleft. inversion Hleft; subst j.
    apply search_from_found in E as (_ & _ & E).
    assert (Hskip : skipn (length pre - 0) s
                    = txt "Total: $" ++ X ++ "." :: d1 :: d2 :: post).
    { unfold s. rewrite Nat.sub_0_r, skipn_app, skipn_all, Nat.sub_diag.
      reflexivity. }
    rewrite Hskip, (total_at X post d1 d2 (length pre) HX Hd H1 H2) in E.
    inversion E; subst m. simpl group.
    unfold Decimal_of_group. rewrite (parse_capture X d1 d2 HX Hd H1 H2).
    unfold bind at 1. fold amount. rewrite Hpos. reflexivity. }
  split; [reflexivity|]. split.
  - unfold extract_amount, amount_patterns. simpl. now rewrite Htry.
  - intros later. simpl. now rewrite Htry.
Qed.

Lemma total_rule_first_witness :
  extract_amount (txt "Tax $0.35 Total: $4.85 Amount 9.99")
  = Ok (DFin false 485 (-2)).
Proof.
  apply (total_rule_first (txt "Tax $0.35 ") (txt "4") (txt " Amount 9.99")
           "8" "5"); [discriminate | reflexivity ..].
Defined.

(** C1 as stated fails: the text holds [Total: $4.85], and the amount is
    the 4.00 of the line before it, where [Subtotal] matches the Total rule
    first. *)
Lemma total_not_always_returned :
  let s := txt "Subtotal: $4.00" ++ NL :: txt "Total: $4.85" in
  contains (txt "Total: $4.85") s = true /\
  extract_amount s = Ok (DFin false 400 (-2)) /\
  dec_units 2 (DFin false 400 (-2)) <> dec_units 2 (DFin false 485 (-2)).
Proof. repeat split; try reflexivity. discriminate. Qed.

(** C7: when no pattern matches, or every capture that parses is at most
    zero, the amount is exactly [Decimal('0.00')]; nothing is raised. *)
Theorem no_positive_amount (s : text) :
  (forall p cap d,
      In p amount_patterns -> search_group1 p s = Some cap ->
      Decimal_of_str cap = Ok d -> dec_le0 d = Ok true) ->
  extract_amount s = Ok zero_amount.
Proof.
  intros H. unfold extract_amount.
  pose proof amount_patterns_set as Hset.
  induction amount_patterns as [|p ps IH]; simpl; [reflexivity|].
  rewrite (try_amount_miss p s).
  - simpl. apply IH.
    + intros q cap d Hq. apply H. now right.
    + intros q Hq. apply Hset. now right.
  - apply Hset. now left.
  - intros cap d. apply H. now left.
Qed.

Lemma no_positive_amount_witness :
  extract_amount (txt "Total: 0.00 due, 0 items") = Ok zero_amount.
Proof.
  apply no_positive_amount.
  intros p cap d [<-|[<-|[<-|[<-|[]]]]] Hc Hd;
    vm_compute in Hc; try discriminate;
    inversion Hc; subst cap; vm_compute in Hd; inversion Hd; reflexivity.
Defined.

(** ** Categorization *)

Section Categorizer.

Variable t : text.     (* the lowered text *)

Lemma first_category_in (cats : list (text * list text)) :
  In (first_category cats t) (map fst cats ++ [txt "other"]).
Proof.
  induction cats as [|[c k] cats IH]; simpl; [now left|].
  destruct (any_keyword k t); [now left | now right].
Qed.

Lemma first_category_first (before after : list (text * list text))
    (category : text) (keywords : list text) :
  (forall c, In c before -> any_keyword (snd c) t = false) ->
  any_keyword keywords t = true ->
  first_category (before ++ (category, keywords) :: after) t = category.
Proof.
  induction before as [|[c k] before IH]; simpl; intros Hb Hk.
  - now rewrite Hk.
  - pose proof (Hb (c, k) (or_introl eq_refl)) as Hck. simpl in Hck.
    rewrite Hck. apply IH; auto.
Qed.

Lemma first_category_none (cats : list (text * list text)) :
  (forall c, In c cats -> any_keyword (snd c) t = false) ->
  first_category cats t = txt "other".
Proof.
  induction cats as [|[c k] cats IH]; simpl; intros H; [reflexivity|].
  pose proof (H (c, k) (or_introl eq_refl)) as Hck. simpl in Hck.
  rewrite Hck. apply IH; auto.
Qed.

End Categorizer.

(** ** Description *)

Lemma firstn_length_le {A : Type} (n : nat) (l : list A) :
  length (firstn n l) <= n.
Proof. rewrite length_firstn. apply Nat.le_min_l. Qed.

(** X2: a description taken from a line of the text is that line cut to
    50 characters. *)
Lemma description_from_line (s s3_key line : text) :
  find qualifies (stripped_lines s) = Some line ->
  extract_description s s3_key = firstn 50 line /\
  length (extract_description s s3_key) <= 50.
Proof.
  intros H. unfold extract_description. rewrite H. split; [reflexivity|].
  apply firstn_length_le.
Qed.

(** C5 at the failing input: no line of the text qualifies, and the result
    is the whole file name, 62 characters long. *)
Theorem description_fallback_unbounded :
  find qualifies (stripped_lines (txt "15.75")) = None /\
  extract_description (txt "15.75") long_key
  = txt "20240115 103000 quarterly team offsite dinner receipt scan.jpg" /\
  length (extract_description (txt "15.75") long_key) = 62.
Proof. repeat split. Qed.

(** ** Dates *)

(** A group the expression does not have stays unset. *)
Lemma run_lacks (g : ascii) (r : regex) :
  mentions g r = false -> forall k, lacks g k -> lacks g (run r k).
Proof.
  induction r; intros Hm k Hk j s c res Hc H; simpl in H, Hm;
    try (apply orb_false_iff in Hm as [Hm1 Hm2]).
  - eauto.
  - destruct s; [discriminate|]. destruct (p a); [eauto|discriminate].
  - eapply IHr1; [exact Hm1 | apply IHr2; eassumption | eassumption
                 | eassumption].
  - destruct (run r1 k j s c) eqn:E.
    + inversion H; subst. eapply IHr1; eassumption.
    + eapply IHr2; eassumption.
  - destruct (run r k j s c) eqn:E.
    + inversion H; subst. eapply IHr; eassumption.
    + eauto.
  - apply star_passes in H as (j' & s' & H). eauto.
  - eapply IHr; [exact Hm2 | | eassumption | eassumption].
    intros j' s' c' r' Hc' H'. eapply Hk; [|eassumption].
    simpl. now rewrite Hm1.
  - destruct (j =? 0); [eauto|discriminate].
  - destruct s as [|x [|y t]]; [eauto| |discriminate].
    destruct (Ascii.eqb x "010"); [eauto|discriminate].
  - destruct (run r accept j s c); [eauto|discriminate].
Qed.

Lemma int_of_nonneg (s : text) : (0 <= int_of s)%Z.
Proof.
  unfold int_of. generalize (strip s). intros l.
  assert (H : forall acc, (0 <= acc)%Z ->
            (0 <= fold_left (fun a c => 10 * a + digit_val c) l acc)%Z).
  { induction l as [|x t IH]; intros acc Ha; cbn [fold_left]; [exact Ha|].
    apply IH. unfold digit_val. lia. }
  apply H. lia.
Qed.

(** A year read by [%y] is 1969 or later: the test [year < 1950] of
    [extract_date] never holds for it. *)
Lemma two_digit_year (s fmt : text) (d : date) :
  mentions "Y" (format_regex fmt) = false ->
  sets "y" (format_regex fmt) = true ->
  strptime s fmt = Ok d -> (1969 <= year d)%Z.
Proof.
  intros HY Hy. unfold strptime.
  destruct (run (format_regex fmt) accept 0 s []) as [[j c]|] eqn:E;
    [|discriminate].
  assert (H1 : group "Y" c = None).
  { apply (run_lacks "Y" (format_regex fmt) HY accept) in E; [exact E| |].
    - intros j' s' c' r' Hc' H'. inversion H'; subst. exact Hc'.
    - reflexivity. }
  assert (H2 : exists v, group "y" c = Some v).
  { apply (run_sets "y" (format_regex fmt) Hy accept (keeps_accept "y")) in E.
    unfold has in E. simpl in E. destruct (group "y" c); [eauto|discriminate]. }
  destruct H2 as [v H2].
  destruct (j =? length s); [|discriminate].
  destruct (valid_date _); [|discriminate].
  intros H. inversion H; subst; clear H. simpl. unfold year_of.
  rewrite H1, H2. pose proof (int_of_nonneg v).
  destruct (int_of v <=? 68)%Z eqn:E68; [lia|].
  apply Z.leb_gt in E68. lia.
Qed.

(** C6 at the failing input: a date with the four-digit year 1945 comes
    back in 2045.  [Date: 01/15/24] is 2024-01-15 through the pivot of
    [%y], and a two-digit 75 stays in 1975: a year read by [%y] is never
    below 1950, so the rule that adds 100 years never applies to it. *)
Theorem four_digit_year_shifted (now : date) :
  extract_date now (txt "12/25/1945") = Ok (txt "2045-12-25") /\
  strptime (txt "12/25/1945") (txt "%m/%d/%Y") = Ok (mkdate 1945 12 25) /\
  extract_date now (txt "Date: 01/15/24") = Ok (txt "2024-01-15") /\
  strptime (txt "01/15/24") (txt "%m/%d/%y") = Ok (mkdate 2024 1 15) /\
  extract_date now (txt "01/15/75") = Ok (txt "1975-01-15") /\
  (forall s d, strptime s (txt "%m/%d/%y") = Ok d -> (1950 <= year d)%Z) /\
  (forall s d, strptime s (txt "%d/%m/%y") = Ok d -> (1950 <= year d)%Z).
Proof.
  repeat split.
  - intros s d H. apply two_digit_year in H; [lia | reflexivity ..].
  - intros s d H. apply two_digit_year in H; [lia | reflexivity ..].
Qed.

(** C3 at the failing input: the year 0050 becomes 150 and is printed with
    three digits, which is not the shape and which the validator's own
    parse refuses. *)
Theorem short_year_breaks_shape (now : date) :
  extract_date now (txt "01/15/0050") = Ok (txt "150-01-15") /\
  is_iso_shape (txt "150-01-15") = false /\
  strptime (txt "150-01-15") (txt "%Y-%m-%d") = Raise ValueError.
Proof. repeat split. Qed.

(** ** The validator *)

Lemma strptime_raises (s f : text) (e : exn) :
  strptime s f = Raise e -> e = ValueError.
Proof.
  unfold strptime.
  destruct (run (format_regex f) accept 0 s []) as [[j c]|]; [|congruence].
  destruct (j =? length s); [|congruence].
  destruct (valid_date _); congruence.
Qed.

Lemma strptime_valid (s f : text) (d : date) :
  strptime s f = Ok d -> valid_date d = true.
Proof.
  unfold strptime.
  destruct (run (format_regex f) accept 0 s []) as [[j c]|]; [|congruence].
  destruct (j =? length s); [|congruence].
  destruct (valid_date _) eqn:E; [|congruence].
  intros H. inversion H; subst. exact E.
Qed.

Lemma check_required_dict (kv : list (text * pyval)) (fields : list text) :
  check_required fields (PDict kv)
  = Ok (negb (existsb (absent_or_empty kv) fields)).
Proof.
  induction fields as [|f fs IH]; simpl; [reflexivity|].
  unfold absent_or_empty at 1.
  destruct (lookup f kv) as [v|]; simpl; [|reflexivity].
  destruct (truthy v); simpl; [exact IH | reflexivity].
Qed.

(** C10: on every value the validator returns a boolean; whatever the body
    raises ends as [False].  So do a value that is no container, an amount
    that is a string, a date that is not a string, and a NaN amount. *)
Theorem validate_total (v : pyval) :
  (validate_expense_data v = Ok true \/ validate_expense_data v = Ok false) /\
  (forall e, validate_body v = Raise e -> validate_expense_data v = Ok false) /\
  validate_body PNone = Raise TypeError /\
  validate_body (PInt 5) = Raise TypeError /\
  validate_body
    (PDict [ (txt "expense_id", PStr (txt "test-123"));
             (txt "amount", PStr (txt "25.50"));
             (txt "category", PStr (txt "food"));
             (txt "description", PStr (txt "Coffee Shop"));
             (txt "date", PStr (txt "2024-01-15")) ]) = Raise TypeError /\
  validate_body
    (PDict [ (txt "expense_id", PStr (txt "test-123"));
             (txt "amount", PDec (DFin false 2550 (-2)));
             (txt "category", PStr (txt "food"));
             (txt "description", PStr (txt "Coffee Shop"));
             (txt "date", PInt 20240115) ]) = Raise TypeError /\
  validate_body (PDict (sample_record DNaN (txt "2024-01-15")))
  = Raise InvalidOperation.
Proof.
  split; [|split].
  - unfold validate_expense_data.
    destruct (validate_body v) as [[|]|e]; auto.
  - intros e H. unfold validate_expense_data. now rewrite H.
  - repeat split.
Qed.

(** ** Printing a date and parsing it back *)

(** Case analysis on an integer known to lie in [0, n). *)
Ltac enum_nat k n :=
  lazymatch n with
  | O => exfalso; lia
  | S ?n' => destruct k as [|k]; [ | enum_nat k n' ]
  end.

Ltac enum_below m n :=
  let k := fresh "k" in
  let E := fresh "E" in
  remember (Z.to_nat m) as k eqn:E;
  assert (m = Z.of_nat k) by lia;
  subst m; clear E;
  enum_nat k n.

Lemma digit_char_facts (n : Z) :
  is_digit (digit_char n) = true /\
  is_space (digit_char n) = false /\
  digit_val (digit_char n) = (n mod 10)%Z.
Proof.
  unfold digit_char.
  assert (H : (0 <= n mod 10 < 10)%Z) by (apply Z.mod_pos_bound; lia).
  remember (n mod 10)%Z as r eqn:Er. clear Er.
  enum_below r 10%nat; repeat split; reflexivity || lia.
Qed.

Ltac zlia := Z.to_euclidean_division_equations; lia.

Lemma str_int_four (y : Z) :
  (1000 <= y <= 9999)%Z ->
  str_int y = [digit_char (y / 1000); digit_char (y / 100);
               digit_char (y / 10); digit_char y].
Proof.
  intros Hy. unfold str_int.
  destruct (Z.to_nat y) as [|[|[|f]]] eqn:E; try lia.
  cbn [digits_of].
  assert (H1 : (y / 10 =? 0)%Z = false) by (apply Z.eqb_neq; zlia).
  assert (H2 : (y / 10 / 10 =? 0)%Z = false) by (apply Z.eqb_neq; zlia).
  assert (H3 : (y / 10 / 10 / 10 =? 0)%Z = false) by (apply Z.eqb_neq; zlia).
  assert (H4 : (y / 10 / 10 / 10 / 10 =? 0)%Z = true) by (apply Z.eqb_eq; zlia).
  rewrite H1, H2, H3, H4.
  replace (y / 10 / 10 / 10)%Z with (y / 1000)%Z by zlia.
  replace (y / 10 / 10)%Z with (y / 100)%Z by zlia.
  reflexivity.
Qed.

Lemma str_int_short (y : Z) :
  (0 <= y < 1000)%Z -> length (str_int y) <= 3.
Proof.
  intros Hy. unfold str_int. cbn [digits_of].
  destruct (y / 10 =? 0)%Z eqn:E1; [simpl; lia|].
  apply Z.eqb_neq in E1.
  destruct (Z.to_nat y) as [|f] eqn:E; [zlia|].
  cbn [digits_of].
  destruct (y / 10 / 10 =? 0)%Z eqn:E2; [simpl; lia|].
  apply Z.eqb_neq in E2.
  destruct f as [|f]; [zlia|].
  cbn [digits_of].
  assert (H3 : (y / 10 / 10 / 10 =? 0)%Z = true) by (apply Z.eqb_eq; zlia).
  rewrite H3. simpl. lia.
Qed.

(** A printed date has the shape exactly when its year has four digits. *)
Lemma shape_year (d : date) :
  valid_date d = true -> is_iso_shape (strftime d) = true ->
  (1000 <= year d <= 9999)%Z.
Proof.
  intros Hv Hs. unfold valid_date in Hv.
  repeat (apply andb_true_iff in Hv as [Hv ?]).
  apply Z.leb_le in Hv. assert (year d <= 9999)%Z by now apply Z.leb_le.
  destruct (Z_lt_le_dec (year d) 1000) as [Hlt|Hge]; [exfalso|lia].
  assert (Hl : length (str_int (year d)) <= 3) by (apply str_int_short; lia).
  unfold strftime in Hs.
  destruct (str_int (year d)) as [|a [|b [|c [|x t]]]];
    simpl in Hl; try lia; simpl in Hs; discriminate.
Qed.

(** The part [-%m-%d] of the format on a printed month and day. *)
Lemma month_day_match (m dd : Z) (c0 : caps) :
  (1 <= m <= 12)%Z -> (1 <= dd <= 31)%Z ->
  run (format_regex (txt "-%m-%d")) accept 4
      ("-" :: pad2 m ++ "-" :: pad2 dd) c0
  = Some (10, ("d", pad2 dd) :: ("m", pad2 m) :: c0) /\
  int_of (pad2 m) = m /\ int_of (pad2 dd) = dd.
Proof.
  intros Hm Hd.
  enum_below m 13%nat; [lia | ..]; enum_below dd 32%nat; (lia || (repeat split)).
Qed.

Lemma year_match (R : regex) (k : cont) (a b c d : ascii) (rest : text)
    (c0 : caps) :
  is_digit a = true -> is_digit b = true ->
  is_digit c = true -> is_digit d = true ->
  run (Cat (Grp "Y" digits4) R) k 0 (a :: b :: c :: d :: rest) c0
  = run R k 4 rest (("Y", [a; b; c; d]) :: c0).
Proof.
  intros Ha Hb Hc Hd. simpl. rewrite Ha, Hb, Hc, Hd. reflexivity.
Qed.

Lemma int_of_chars (a b c d : ascii) :
  is_space a = false -> is_space d = false ->
  int_of [a; b; c; d]
  = (1000 * digit_val a + 100 * digit_val b + 10 * digit_val c
     + digit_val d)%Z.
Proof.
  intros Sa Sd. unfold int_of, strip.
  cbn [lstrip]. rewrite Sa. cbn [rev app lstrip]. rewrite Sd.
  cbn [rev app fold_left]. lia.
Qed.

Lemma int_of_four (n1 n2 n3 n4 : Z) :
  int_of [digit_char n1; digit_char n2; digit_char n3; digit_char n4]
  = (1000 * (n1 mod 10) + 100 * (n2 mod 10) + 10 * (n3 mod 10) + n4 mod 10)%Z.
Proof.
  destruct (digit_char_facts n1) as (_ & S1 & V1).
  destruct (digit_char_facts n2) as (_ & _ & V2).
  destruct (digit_char_facts n3) as (_ & _ & V3).
  destruct (digit_char_facts n4) as (_ & S4 & V4).
  rewrite int_of_chars by assumption. rewrite V1, V2, V3, V4. reflexivity.
Qed.

Lemma days_in_month_le (y m : Z) : (days_in_month y m <= 31)%Z.
Proof.
  unfold days_in_month.
  repeat match goal with
         | |- context [match ?x with _ => _ end] => destruct x
         end; lia.
Qed.

(** glibc's [%Y-%m-%d] of a date with a four-digit year parses back to the
    date. *)
Lemma strptime_strftime (d : date) :
  valid_date d = true -> (1000 <= year d)%Z ->
  strptime (strftime d) (txt "%Y-%m-%d") = Ok d.
Proof.
  destruct d as [y m dd]. intros Hv Hy. pose proof Hv as Hv'.
  unfold valid_date in Hv'. simpl in Hv', Hy.
  repeat (apply andb_true_iff in Hv' as [Hv' ?]).
  repeat match goal with
         | H : (_ <=? _)%Z = true |- _ => apply Z.leb_le in H
         end.
  pose proof (days_in_month_le y m) as Hdim.
  destruct (month_day_match m dd []) as (_ & Hm & Hd); [lia | lia |].
  unfold strftime, strptime. simpl year. simpl month. simpl day.
  rewrite str_int_four by lia.
  change (format_regex (txt "%Y-%m-%d"))
    with (Cat (Grp "Y" digits4) (format_regex (txt "-%m-%d"))).
  cbn [app].
  rewrite year_match by apply digit_char_facts.
  rewrite (proj1 (month_day_match m dd _ ltac:(lia) ltac:(lia))).
  change (length _) with 10. cbn [Nat.eqb].
  replace (year_of _) with y.
  2:{ unfold year_of. cbn [group Ascii.eqb Bool.eqb andb].
      rewrite int_of_four. zlia. }
  unfold field_of. cbn [group Ascii.eqb Bool.eqb andb].
  rewrite Hm, Hd, Hv. reflexivity.
Qed.

Lemma replace_year_result (d d' : date) (y : Z) :
  replace_year d y = Ok d' -> valid_date d' = true.
Proof.
  unfold replace_year. destruct (valid_date _) eqn:E; [|discriminate].
  intros H. inversion H; subst. exact E.
Qed.

Lemma replace_year_raises (d : date) (y : Z) (e : exn) :
  replace_year d y = Raise e -> e = ValueError.
Proof. unfold replace_year. destruct (valid_date _); congruence. Qed.

Lemma try_format_result (date_str fmt : text) :
  exists o, try_format date_str fmt = Ok o /\ printed o.
Proof.
  unfold try_format.
  destruct (strptime date_str fmt) as [d|e] eqn:Ep; simpl.
  - apply strptime_valid in Ep.
    destruct (year d <? 1950)%Z.
    + destruct (replace_year d (year d + 100)) as [d'|e] eqn:Er.
      * apply replace_year_result in Er. eexists; split; [reflexivity|].
        intros out H. inversion H. eauto.
      * apply replace_year_raises in Er. subst e.
        eexists; split; [reflexivity|]. intros out H. discriminate.
    + eexists; split; [reflexivity|]. intros out H. inversion H. eauto.
  - apply strptime_raises in Ep. subst e.
    eexists; split; [reflexivity|]. intros out H. discriminate.
Qed.

Lemma format_loop_result (date_str : text) (fmts : list text) :
  exists o, format_loop date_str fmts = Ok o /\ printed o.
Proof.
  induction fmts as [|f fs IH]; simpl.
  - eexists; split; [reflexivity|]. intros out H. discriminate.
  - destruct (try_format_result date_str f) as (o & Ho & Hp).
    rewrite Ho. simpl. destruct o as [out|]; [|exact IH].
    eexists; split; [reflexivity|]. exact Hp.
Qed.

Lemma try_pattern_result (p : regex) (s : text) :
  sets "1" p = true -> exists o, try_pattern p s = Ok o /\ printed o.
Proof.
  intros Hs. unfold try_pattern, re_search.
  destruct (search_from p 0 s) as [[j [e c]]|] eqn:E.
  - destruct (search_sets "1" p s 0 j e c Hs E) as [v Hv]. rewrite Hv.
    apply format_loop_result.
  - eexists; split; [reflexivity|]. intros out H. discriminate.
Qed.

Lemma date_patterns_set : forall p, In p date_patterns -> sets "1" p = true.
Proof. intros p [<-|[<-|[<-|[<-|[]]]]]; reflexivity. Qed.

Lemma pattern_loop_result (s : text) :
  exists o, pattern_loop date_patterns s = Ok o /\ printed o.
Proof.
  pose proof date_patterns_set as Hset.
  induction date_patterns as [|p ps IH]; simpl.
  - eexists; split; [reflexivity|]. intros out H. discriminate.
  - destruct (try_pattern_result p s) as (o & Ho & Hp);
      [apply Hset; now left|].
    rewrite Ho. simpl. destruct o as [out|].
    + eexists; split; [reflexivity|]. exact Hp.
    + apply IH. intros q Hq. apply Hset. now right.
Qed.

(** [extract_date] never raises, and its result is a calendar date as
    [strftime] prints it. *)
Lemma extract_date_result (now : date) (s : text) :
  valid_date now = true ->
  exists d, valid_date d = true /\ extract_date now s = Ok (strftime d).
Proof.
  intros Hn. unfold extract_date.
  destruct (pattern_loop_result s) as (o & Ho & Hp). rewrite Ho. simpl.
  destruct o as [out|].
  - destruct (Hp out eq_refl) as (d & Hd & ->). eauto.
  - eauto.
Qed.

(** ** Assembling, then validating *)

Lemma gt0_facts (a : Decimal) :
  dec_gt0 a = Ok true -> dec_le0 a = Ok false /\ dec_truthy a = true.
Proof.
  destruct a as [neg coef ex|neg|]; simpl; intros H; [| |discriminate].
  - injection H as H. apply andb_true_iff in H as [Hn Hc].
    apply negb_true_iff in Hn. apply N.ltb_lt in Hc. subst neg.
    assert (E : (coef =? 0)%N = false) by (apply N.eqb_neq; lia).
    rewrite E. auto.
  - injection H as H. apply negb_true_iff in H. subst. auto.
Qed.

Lemma str_uuid_not_empty (u : N) : is_nil (str_uuid u) = false.
Proof.
  unfold str_uuid. destruct (firstn 8 (hex_digits 32 u)); reflexivity.
Qed.

Lemma category_not_empty (s : text) : is_nil (categorize_expense s) = false.
Proof.
  pose proof (first_category_in (lower s) categories) as H.
  fold (categorize_expense s) in H.
  simpl in H. decompose [or] H; try contradiction;
    match goal with E : _ = categorize_expense s |- _ => rewrite <- E end;
    reflexivity.
Qed.

(** The validator on a record laid out as the assembler lays it out. *)
Lemma validate_assembled (id category description expense_date processed_at
                          s3_key raw_text : text) (amount : Decimal) (d : date) :
  is_nil id = false -> dec_gt0 amount = Ok true ->
  is_nil category = false -> is_nil description = false ->
  strptime expense_date (txt "%Y-%m-%d") = Ok d ->
  validate_expense_data
    (PDict [ (txt "expense_id", PStr id);
             (txt "amount", PDec amount);
             (txt "category", PStr category);
             (txt "description", PStr description);
             (txt "date", PStr expense_date);
             (txt "processed_at", PStr processed_at);
             (txt "s3_key", PStr s3_key);
             (txt "raw_text", PStr raw_text) ]) = Ok true.
Proof.
  intros Hid Ha Hc Hd Hp. destruct (gt0_facts amount Ha) as [Hle Htr].
  assert (He : is_nil expense_date = false).
  { destruct expense_date; [discriminate Hp | reflexivity]. }
  match goal with |- validate_expense_data (PDict ?l) = _ => set (kv := l) end.
  assert (L1 : lookup (txt "expense_id") kv = Some (PStr id)) by reflexivity.
  assert (L2 : lookup (txt "amount") kv = Some (PDec amount)) by reflexivity.
  assert (L3 : lookup (txt "category") kv = Some (PStr category))
    by reflexivity.
  assert (L4 : lookup (txt "description") kv = Some (PStr description))
    by reflexivity.
  assert (L5 : lookup (txt "date") kv = Some (PStr expense_date))
    by reflexivity.
  clearbody kv.
  unfold validate_expense_data, validate_body, getitem.
  rewrite check_required_dict. unfold required_fields.
  cbn [map existsb]. unfold absent_or_empty.
  rewrite L1, L2, L3, L4, L5. cbn [truthy].
  rewrite Hid, Hc, Hd, He, Htr. cbn [negb orb bind le_zero].
  rewrite Hle. cbn [bind check_date]. rewrite Hp. reflexivity.
Qed.

(** C8: when the extracted amount is above zero, the description is not
    empty and the date has the shape [YYYY-MM-DD], the assembled record
    passes the validator. *)
Theorem assemble_then_validate (random_bits : N) (utcnow_iso : text)
    (now : date) (s s3_key : text) (amount : Decimal) (expense_date : text) :
  valid_date now = true ->
  extract_amount s = Ok amount -> dec_gt0 amount = Ok true ->
  is_nil (extract_description s s3_key) = false ->
  extract_date now s = Ok expense_date -> is_iso_shape expense_date = true ->
  exists record,
    extract_expense_info random_bits utcnow_iso now s s3_key = Ok record /\
    getitem record (txt "amount") = Ok (PDec amount) /\
    validate_expense_data record = Ok true.
Proof.
  intros Hn Ha Hpos Hdesc Hd Hshape.
  destruct (extract_date_result now s Hn) as (d & Hv & Hd').
  rewrite Hd in Hd'. injection Hd' as ->.
  pose proof (shape_year d Hv Hshape) as Hy.
  unfold extract_expense_info. rewrite Ha, Hd. cbn [bind].
  eexists. split; [reflexivity|]. split; [reflexivity|].
  apply (validate_assembled _ _ _ _ _ _ _ _ d);
    [ apply str_uuid_not_empty | exact Hpos | apply category_not_empty
    | exact Hdesc | apply strptime_strftime; [exact Hv | lia] ].
Qed.

Lemma assemble_then_validate_witness :
  exists record,
    extract_expense_info 12345678901234567890123456789
      (txt "2026-11-04T10:02:00") (mkdate 2026 11 4)
      (txt "Starbucks Coffee" ++ NL :: txt "Date: 01/15/2024" ++ NL ::
       txt "Total:            $4.85")
      (txt "starbucks_receipt.jpg") = Ok record /\
    getitem record (txt "amount") = Ok (PDec (DFin false 485 (-2))) /\
    validate_expense_data record = Ok true.
Proof.
  apply (assemble_then_validate _ _ _ _ _ (DFin false 485 (-2))
           (txt "2024-01-15")); reflexivity.
Defined.

(** ** The batch loop *)

Ltac break_match :=
  match goal with
  | |- context [match ?x with _ => _ end] => destruct x eqn:?
  | |- context [if ?x then _ else _] => destruct x eqn:?
  end.

Lemma process_record_keeps_key (e : env) (record : pyval) (st : hstate) :
  key_var st <> None \/ has_key record = true ->
  key_var (step e record st) <> None.
Proof.
  unfold step, process_record, has_key, bindM, lift, ret, set_key,
    next_extraction, save.
  intros H. destruct (bucket_of record) as [b|x];
    [|destruct H as [H|H]; [exact H | discriminate]].
  destruct (key_of record) as [k|x];
    [|destruct H as [H|H]; [exact H | discriminate]].
  clear H. repeat break_match; simpl; discriminate.
Qed.

Lemma loop_cons (e : env) (r : pyval) (rs : list pyval) (st : hstate) :
  key_var (step e r st) <> None ->
  records_loop e (r :: rs) st = records_loop e rs (step e r st).
Proof.
  unfold step. simpl. intros H.
  destruct (process_record e r st) as [[u|x] st']; simpl in *;
    [reflexivity|].
  destruct (key_var st'); [reflexivity | congruence].
Qed.

(** Once [key] is bound the loop goes through every record. *)
Lemma loop_completes (e : env) (rs : list pyval) :
  forall st, key_var st <> None ->
             exists st', records_loop e rs st = (Ok tt, st').
Proof.
  induction rs as [|r rs IH]; intros st Hk; simpl.
  - eexists; reflexivity.
  - pose proof (process_record_keeps_key e r st (or_introl Hk)) as Hk'.
    unfold step in Hk'.
    destruct (process_record e r st) as [[u|x] st']; simpl in Hk'.
    + apply IH, Hk'.
    + destruct (key_var st') eqn:E; [|congruence].
      apply IH. congruence.
Qed.

Lemma unsupported_skipped (e : env) (r : pyval) (st : hstate) :
  has_key r = true -> unsupported r = true ->
  exists k, process_record e r st
            = (Ok tt, mkstate (Some k) (processed_count st) (table st)
                              (extractions st)).
Proof.
  unfold has_key, unsupported, process_record, bindM, lift, ret, set_key.
  intros Hk Hu.
  destruct (bucket_of r) as [b|x]; [|discriminate].
  destruct (key_of r) as [k|x]; [|discriminate].
  destruct k; try discriminate. cbn [str_lower]. rewrite Hu.
  eexists; reflexivity.
Qed.

(** X18: in a batch whose records each give a bucket name and a key, the
    handler goes through every record and answers 200: after any record,
    whether it was saved, skipped or failed, the rest of the batch is
    processed from the state that record left; and a record whose key ends
    with none of the supported suffixes leaves the table and the count as
    they were, whatever the collaborators would answer. *)
Theorem batch_isolation (e : env) (records : list pyval) (tbl : list pyval)
    (n : nat) :
  init_services e = Ok tt ->
  Forall (fun r => has_key r = true) records ->
  (exists st,
      records_loop e records (initial tbl n) = (Ok tt, st) /\
      lambda_handler e (s3_event records) tbl n
      = (Status200 (processed_count st), st)) /\
  (forall r rest st,
      In r records ->
      records_loop e (r :: rest) st = records_loop e rest (step e r st)) /\
  (forall r st,
      In r records -> unsupported r = true ->
      fst (process_record e r st) = Ok tt /\
      table (step e r st) = table st /\
      processed_count (step e r st) = processed_count st /\
      extractions (step e r st) = extractions st).
Proof.
  intros Hinit Hall. rewrite Forall_forall in Hall. split; [|split].
  - assert (Hloop : exists st,
               records_loop e records (initial tbl n) = (Ok tt, st)).
    { destruct records as [|r rs]; [eexists; reflexivity|].
      rewrite loop_cons.
      - apply loop_completes. apply process_record_keeps_key.
        right. apply Hall. now left.
      - apply process_record_keeps_key. right. apply Hall. now left. }
    destruct Hloop as [st Hst]. exists st. split; [exact Hst|].
    unfold lambda_handler. rewrite Hinit.
    change (py_in (txt "Records") (s3_event records)) with (@Ok bool true).
    change (rs <- getitem (s3_event records) (txt "Records") ;; py_iter rs)
      with (@Ok (list pyval) records).
    cbv iota beta. rewrite Hst. reflexivity.
  - intros r rest st Hr. apply loop_cons.
    apply process_record_keeps_key. right. now apply Hall.
  - intros r st Hr Hu.
    destruct (unsupported_skipped e r st (Hall r Hr) Hu) as [k Hk].
    unfold step. rewrite Hk. repeat split.
Qed.

Lemma batch_isolation_witness :
  (exists st,
      records_loop sample_env sample_batch (initial [] 0) = (Ok tt, st) /\
      lambda_handler sample_env (s3_event sample_batch) [] 0
      = (Status200 (processed_count st), st)) /\
  (forall r rest st,
      In r sample_batch ->
      records_loop sample_env (r :: rest) st
      = records_loop sample_env rest (step sample_env r st)) /\
  (forall r st,
      In r sample_batch -> unsupported r = true ->
      fst (process_record sample_env r st) = Ok tt /\
      table (step sample_env r st) = table st /\
      processed_count (step sample_env r st) = processed_count st /\
      extractions (step sample_env r st) = extractions st).
Proof.
  apply (batch_isolation sample_env sample_batch [] 0);
    [reflexivity | repeat constructor].
Defined.

(** The sample batch: the [.docx] is skipped, the [.PDF] fails in Textract,
    and the text file after them is still saved. *)
Lemma sample_batch_run :
  fst (lambda_handler sample_env (s3_event sample_batch) [] 0) = Status200 1 /\
  length (table (snd (lambda_handler sample_env (s3_event sample_batch) [] 0)))
  = 1.
Proof. split; reflexivity. Qed.

(** A record without a bucket name or a key fails before [key] is set. *)
Lemma no_key_raises (e : env) (r : pyval) (st : hstate) :
  has_key r = false -> exists x, process_record e r st = (Raise x, st).
Proof.
  unfold has_key, process_record, bindM, lift. intros Hk.
  destruct (bucket_of r) as [b|x]; [|eexists; reflexivity].
  destruct (key_of r) as [k|x]; [discriminate | eexists; reflexivity].
Qed.

(** C9: the failure of one document can end the batch.  A batch is gone
    through to the end exactly when its first record gives a bucket name
    and a key.  When it gives none, the [except] clause of the loop reads
    [key] before any record has bound it: the loop stops there with a
    [NameError], nothing is read, extracted or written for the records
    after it, and the handler answers 500. *)
Theorem first_failure_ends_batch (e : env) (r : pyval) (rest : list pyval)
    (tbl : list pyval) (n : nat) :
  ((exists st, records_loop e (r :: rest) (initial tbl n) = (Ok tt, st)) <->
   has_key r = true) /\
  (has_key r = false ->
   records_loop e (r :: rest) (initial tbl n)
   = (Raise NameError, initial tbl n) /\
   (init_services e = Ok tt ->
    lambda_handler e (s3_event (r :: rest)) tbl n
    = (Status500, initial tbl n))).
Proof.
  assert (Hstop : has_key r = false ->
                  records_loop e (r :: rest) (initial tbl n)
                  = (Raise NameError, initial tbl n)).
  { intros Hk. destruct (no_key_raises e r (initial tbl n) Hk) as [x Hx].
    cbn [records_loop]. rewrite Hx. reflexivity. }
  split; [split|].
  - intros [st Hst]. destruct (has_key r) eqn:Hk; [reflexivity|].
    rewrite (Hstop eq_refl) in Hst. discriminate.
  - intros Hk. rewrite loop_cons.
    + apply loop_completes. apply process_record_keeps_key. now right.
    + apply process_record_keeps_key. now right.
  - intros Hk. split; [now apply Hstop|]. intros Hinit.
    unfold lambda_handler. rewrite Hinit.
    change (py_in (txt "Records") (s3_event (r :: rest))) with (@Ok bool true).
    change (rs <- getitem (s3_event (r :: rest)) (txt "Records") ;; py_iter rs)
      with (@Ok (list pyval) (r :: rest)).
    cbv iota beta. now rewrite (Hstop Hk).
Qed.

(** A record without [s3.object] before a text receipt: the batch ends
    with 500 and an empty table, while the receipt alone is saved. *)
Lemma first_failure_ends_batch_witness :
  lambda_handler sample_env
    (s3_event [ PDict [ (txt "s3",
                         PDict [ (txt "bucket",
                                  PDict [ (txt "name",
                                           PStr (txt "uploads")) ]) ]) ];
                s3_record (txt "uploads") (txt "receipt.txt") ]) [] 0
  = (Status500, initial [] 0) /\
  fst (lambda_handler sample_env
         (s3_event [ s3_record (txt "uploads") (txt "receipt.txt") ]) [] 0)
  = Status200 1.
Proof.
  split; [|reflexivity].
  apply (proj2 (first_failure_ends_batch sample_env _ _ [] 0));
    reflexivity.
Defined.

(** X1: a first record that gives no bucket name or no key ends the batch:
    the [except] clause reads [key] before any record has bound it, and the
    handler answers 500 with nothing processed. *)
Theorem unbound_key_aborts (e : env) (r : pyval) (rest : list pyval)
    (tbl : list pyval) (n : nat) :
  init_services e = Ok tt -> has_key r = false ->
  lambda_handler e (s3_event (r :: rest)) tbl n = (Status500, initial tbl n).
Proof.
  intros Hinit Hk. unfold lambda_handler. rewrite Hinit.
  change (py_in (txt "Records") (s3_event (r :: rest))) with (@Ok bool true).
  change (rs <- getitem (s3_event (r :: rest)) (txt "Records") ;; py_iter rs)
    with (@Ok (list pyval) (r :: rest)).
  cbv iota beta. cbn [records_loop].
  assert (H : process_record e r (initial tbl n)
              = (Raise KeyError, initial tbl n) \/
              process_record e r (initial tbl n)
              = (Raise TypeError, initial tbl n)).
  { unfold has_key in Hk. unfold process_record, bindM, lift.
    destruct (bucket_of r) as [b|x] eqn:Eb.
    - destruct (key_of r) as [k|x] eqn:Ek; [discriminate|].
      unfold key_of in Ek. unfold getitem in Ek.
      repeat match type of Ek with
             | context [match ?x with _ => _ end] => destruct x; simpl in Ek
             end; inversion Ek; auto.
    - unfold bucket_of in Eb. unfold getitem in Eb.
      repeat match type of Eb with
             | context [match ?x with _ => _ end] => destruct x; simpl in Eb
             end; inversion Eb; auto. }
  destruct H as [H|H]; rewrite H; reflexivity.
Qed.

Lemma unbound_key_aborts_witness :
  lambda_handler sample_env
    (s3_event [ PDict [ (txt "s3",
                         PDict [ (txt "object",
                                  PDict [ (txt "key",
                                           PStr (txt "a.txt")) ]) ]) ];
                s3_record (txt "uploads") (txt "receipt.txt") ]) [] 0
  = (Status500, initial [] 0).
Proof. apply unbound_key_aborts; reflexivity. Defined.

(** ** Further facts *)

Lemma description_from_line_witness :
  extract_description (txt "Starbucks Coffee" ++ NL :: txt "123 Main Street")
    (txt "starbucks_receipt.jpg") = firstn 50 (txt "Starbucks Coffee") /\
  length (extract_description
            (txt "Starbucks Coffee" ++ NL :: txt "123 Main Street")
            (txt "starbucks_receipt.jpg")) <= 50.
Proof. apply description_from_line. reflexivity. Defined.

(** X3: the date extractor never raises and gives a calendar date as
    [strftime] prints it; when no date pattern matches, that date is the
    current date. *)
Lemma date_fallback (now : date) (s : text) :
  valid_date now = true ->
  (exists d, valid_date d = true /\ extract_date now s = Ok (strftime d)) /\
  ((forall p, In p date_patterns -> re_search p s = None) ->
   extract_date now s = Ok (strftime now)).
Proof.
  intros Hn. split; [now apply extract_date_result|].
  intros H. unfold extract_date.
  assert (E : pattern_loop date_patterns s = Ok None).
  { induction date_patterns as [|p ps IH]; [reflexivity|]. simpl.
    unfold try_pattern. rewrite (H p (or_introl eq_refl)). simpl.
    apply IH. intros q Hq. apply H. now right. }
  rewrite E. reflexivity.
Qed.

Lemma date_fallback_witness :
  (exists d, valid_date d = true /\
             extract_date (mkdate 2026 11 4) (txt "No date here")
             = Ok (strftime d)) /\
  ((forall p, In p date_patterns -> re_search p (txt "No date here") = None) ->
   extract_date (mkdate 2026 11 4) (txt "No date here")
   = Ok (strftime (mkdate 2026 11 4))).
Proof. apply date_fallback. reflexivity. Defined.

(** ** The strings a match consumes *)

Lemma star_sound (p : ascii -> bool) (k : cont) (c : caps) :
  forall s i res,
    star p k i s c = Some res ->
    exists w s', s = w ++ s' /\ forallb p w = true /\
                 k (i + length w) s' c = Some res.
Proof.
  apply star_trace. auto.
Qed.

(** What the matcher consumes before it continues is a string of the
    expression. *)
Lemma run_sound (r : regex) :
  forall k i s c res,
    run r k i s c = Some res ->
    exists w s' c', s = w ++ s' /\ lang r w /\
                    k (i + length w) s' c' = Some res.
Proof.
  induction r; intros k i s c res H; simpl in H.
  - exists [], s, c. rewrite Nat.add_0_r. simpl. auto.
  - destruct s as [|x t]; [discriminate|].
    destruct (p x) eqn:Ex; [|discriminate].
    exists [x], t, c. simpl. replace (i + 1) with (S i) by lia. eauto.
  - apply IHr1 in H as (w1 & s1 & c1 & -> & L1 & H).
    apply IHr2 in H as (w2 & s2 & c2 & -> & L2 & H).
    exists (w1 ++ w2), s2, c2. rewrite <- app_assoc, length_app, Nat.add_assoc.
    simpl. eauto 10.
  - destruct (run r1 k i s c) eqn:E.
    + inversion H; subst. apply IHr1 in E as (w & s' & c' & -> & L & E).
      exists w, s', c'. simpl. auto.
    + apply IHr2 in H as (w & s' & c' & -> & L & H).
      exists w, s', c'. simpl. auto.
  - destruct (run r k i s c) eqn:E.
    + inversion H; subst. apply IHr in E as (w & s' & c' & -> & L & E).
      exists w, s', c'. simpl. auto.
    + exists [], s, c. rewrite Nat.add_0_r. simpl. auto.
  - apply star_sound in H as (w & s' & -> & Hw & H). exists w, s', c. auto.
  - apply IHr in H as (w & s' & c' & -> & L & H). simpl. eauto 10.
  - destruct (i =? 0); [|discriminate].
    exists [], s, c. rewrite Nat.add_0_r. simpl. auto.
  - exists [], s, c. rewrite Nat.add_0_r. simpl.
    destruct s as [|x [|y t]]; [auto| |discriminate].
    destruct (Ascii.eqb x "010"); [auto|discriminate].
  - destruct (run r accept i s c); [|discriminate].
    exists [], s, c. rewrite Nat.add_0_r. simpl. auto.
Qed.

(** ** The shape of an extracted amount *)

Lemma group_in_cons (g : ascii) (Q : text -> Prop) (v : text) (c : caps) :
  Q v -> group_in g Q ((g, v) :: c).
Proof.
  intros Hv u. simpl. rewrite Ascii.eqb_refl. intros H.
  inversion H; subst. exact Hv.
Qed.

(** In every match, a group holds a string of its body. *)
Lemma run_grouped (g : ascii) (Q : text -> Prop) (r : regex) :
  grouped g Q r ->
  forall k,
    (forall j s c res, group_in g Q c -> k j s c = Some res ->
                       group_in g Q (snd res)) ->
    forall j s c res, group_in g Q c -> run r k j s c = Some res ->
                      group_in g Q (snd res).
Proof.
  induction r; intros Hr k Hk j s c res Hc H; simpl in H, Hr.
  - eauto.
  - destruct s; [discriminate|]. destruct (p a); [eauto|discriminate].
  - destruct Hr as [H1 H2].
    eapply (IHr1 H1); [|eassumption|eassumption].
    intros; eapply (IHr2 H2); eassumption.
  - destruct Hr as [H1 H2].
    destruct (run r1 k j s c) eqn:E.
    + inversion H; subst. eapply IHr1; eassumption.
    + eapply IHr2; eassumption.
  - destruct (run r k j s c) eqn:E.
    + inversion H; subst. eapply IHr; eassumption.
    + eauto.
  - apply star_passes in H as (j' & s' & H). eauto.
  - destruct Hr as [-> Hin].
    apply run_sound in H as (w & s' & c' & -> & L & H).
    eapply Hk; [|exact H]. apply group_in_cons.
    rewrite firstn_exact; [auto | lia].
  - destruct (j =? 0); [eauto|discriminate].
  - destruct s as [|x [|y t]]; [eauto| |discriminate].
    destruct (Ascii.eqb x "010"); [eauto|discriminate].
  - destruct (run r accept j s c); [eauto|discriminate].
Qed.

Lemma search_grouped (g : ascii) (Q : text -> Prop) (r : regex) (s : text)
    i j e c v :
  grouped g Q r -> search_from r i s = Some (j, (e, c)) ->
  group g c = Some v -> Q v.
Proof.
  intros Hg H Hv. apply search_from_found in H as (_ & _ & H).
  eapply (run_grouped g Q r Hg accept) in H.
  - apply H. exact Hv.
  - intros j' s' c' r' Hc' H'. inversion H'; subst. exact Hc'.
  - intros u Hu. discriminate.
Qed.

Lemma lang_digits1 (w : text) :
  lang digits1 w -> w <> [] /\ forallb is_digit w = true.
Proof.
  simpl. intros (w1 & w2 & -> & (x & -> & Hx) & Hw). simpl.
  rewrite Hx, Hw. split; [discriminate | reflexivity].
Qed.

Lemma lang_digits2 (w : text) :
  lang digits2 w ->
  exists d1 d2, w = [d1; d2] /\ is_digit d1 = true /\ is_digit d2 = true.
Proof.
  simpl. intros (w1 & w2 & -> & (x & -> & Hx) & (y & -> & Hy)).
  exists x, y. auto.
Qed.

Lemma lang_dot (w : text) : lang (Chr (is_char ".")) w -> w = ["."].
Proof.
  cbn [lang]. intros (x & -> & Hx). unfold is_char in Hx.
  apply Ascii.eqb_eq in Hx. now subst.
Qed.

Lemma lang_money (w : text) : lang money w -> money_text w.
Proof.
  intros (w1 & w2 & -> & L1 & L2). apply lang_digits1 in L1 as [Hn Hd].
  exists w1, w2. repeat split; auto. destruct L2 as [->|L2]; [now left|].
  right. destruct L2 as (u1 & u2 & -> & Ld & L2).
  apply lang_dot in Ld. apply lang_digits2 in L2 as (d1 & d2 & -> & H1 & H2).
  subst. exists d1, d2. auto.
Qed.

Lemma lang_fraction (w : text) :
  lang (Cat digits1 (Cat (Chr (is_char ".")) digits2)) w -> money_text w.
Proof.
  intros (w1 & w2 & -> & L1 & (u1 & u2 & -> & Ld & L2)).
  apply lang_digits1 in L1 as [Hn Hd].
  apply lang_dot in Ld. apply lang_digits2 in L2 as (d1 & d2 & -> & H1 & H2).
  subst. exists w1, ["."; d1; d2]. repeat split; auto.
  right. exists d1, d2. auto.
Qed.

Lemma amount_patterns_grouped :
  forall p, In p amount_patterns -> grouped "1" money_text p.
Proof.
  intros p [<-|[<-|[<-|[<-|[]]]]]; simpl; repeat split; auto;
    intros w; (apply lang_money || apply lang_fraction).
Qed.

(** [Decimal] of a number written as the patterns write it. *)
Lemma parse_money (w : text) :
  money_text w ->
  exists coef e, Decimal_of_str w = Ok (DFin false coef e) /\
                 (e = 0 \/ e = -2)%Z.
Proof.
  intros (X & frac & -> & Hn & Hd & [->|(d1 & d2 & -> & H1 & H2)]).
  - rewrite app_nil_r. exists (coef_of X), 0%Z. split; [|auto].
    unfold Decimal_of_str. destruct X as [|x0 X']; [congruence|].
    pose proof Hd as Hd'. simpl in Hd'.
    apply andb_true_iff in Hd' as [Hx0 _]. cbv iota beta.
    rewrite (digit_is_not x0 "-" Hx0 eq_refl), (digit_is_not x0 "+" Hx0 eq_refl).
    pose proof (take_digits_app (x0 :: X') [] Hd) as Ht.
    pose proof (drop_digits_app (x0 :: X') [] Hd) as Hr.
    rewrite !app_nil_r in Ht. rewrite app_nil_r in Hr.
    cbn [take_digits drop_digits] in Ht, Hr. rewrite Hx0 in Ht, Hr.
    cbn [take_digits drop_digits]. rewrite Hx0, Ht, Hr. reflexivity.
  - exists (coef_of (X ++ [d1; d2])), (-2)%Z. split; [|auto].
    now apply parse_capture.
Qed.

(** One rule of the amount loop gives nothing or a positive finite decimal
    with no or two fractional digits. *)
Lemma try_amount_shape (p : regex) (s : text) :
  In p amount_patterns ->
  try_amount p s = Ok None \/
  exists coef e, try_amount p s = Ok (Some (DFin false coef e)) /\
                 (0 < coef)%N /\ (e = 0 \/ e = -2)%Z.
Proof.
  intros Hp. unfold try_amount, re_search.
  destruct (search_from p 0 s) as [[j [e c]]|] eqn:E; [|now left].
  destruct (search_sets "1" p s 0 j e c (amount_patterns_set p Hp) E)
    as [v Hv].
  pose proof (search_grouped "1" money_text p s 0 j e c v
                (amount_patterns_grouped p Hp) E Hv) as Hm.
  destruct (parse_money v Hm) as (coef & ex & Hd & He).
  rewrite Hv. simpl. rewrite Hd. simpl.
  destruct (0 <? coef)%N eqn:Ec; [|now left].
  right. exists coef, ex. apply N.ltb_lt in Ec. auto.
Qed.

(** X4: the amount is either the default [Decimal('0.00')] or a positive
    finite decimal with no or two fractional digits; nothing is raised. *)
Theorem amount_shape (s : text) :
  extract_amount s = Ok zero_amount \/
  exists coef e, extract_amount s = Ok (DFin false coef e) /\
                 (0 < coef)%N /\ (e = 0 \/ e = -2)%Z.
Proof.
  unfold extract_amount.
  assert (H : forall ps, (forall p, In p ps -> In p amount_patterns) ->
            amount_loop ps s zero_amount = Ok zero_amount \/
            exists coef e,
              amount_loop ps s zero_amount = Ok (DFin false coef e) /\
              (0 < coef)%N /\ (e = 0 \/ e = -2)%Z).
  { induction ps as [|p ps IH]; intros Hin; simpl; [now left|].
    destruct (try_amount_shape p s (Hin p (or_introl eq_refl)))
      as [Hn|(coef & e & Hs & Hc & He)].
    - rewrite Hn. simpl. apply IH. intros q Hq. apply Hin. now right.
    - rewrite Hs. simpl. right. eauto. }
  apply H. auto.
Qed.

(** X5: the rules are tried in their order, and the first one whose
    leftmost match is above zero gives the amount. *)
Theorem amount_first_positive (s : text) (before after : list regex)
    (p : regex) (cap : text) (d : Decimal) :
  amount_patterns = before ++ p :: after ->
  (forall q cap' d', In q before -> search_group1 q s = Some cap' ->
                     Decimal_of_str cap' = Ok d' -> dec_le0 d' = Ok true) ->
  search_group1 p s = Some cap -> Decimal_of_str cap = Ok d ->
  dec_gt0 d = Ok true ->
  extract_amount s = Ok d.
Proof.
  intros Hpat Hbefore Hcap Hd Hpos. unfold extract_amount.
  assert (Hset : forall q, In q (before ++ p :: after) -> sets "1" q = true).
  { rewrite <- Hpat. apply amount_patterns_set. }
  rewrite Hpat. clear Hpat. generalize zero_amount.
  induction before as [|q before IH]; intros a; simpl.
  - assert (Ht : try_amount p s = Ok (Some d)).
    { unfold try_amount. unfold search_group1 in Hcap.
      destruct (re_search p s) as [[j [e c]]|]; [|discriminate].
      rewrite Hcap. simpl. rewrite Hd. simpl. rewrite Hpos. reflexivity. }
    rewrite Ht. reflexivity.
  - rewrite (try_amount_miss q s).
    + simpl. apply IH.
      * intros q' cap' d' Hq'. apply Hbefore. now right.
      * intros q' Hq'. apply Hset. now right.
    + apply Hset. now left.
    + intros cap' d'. apply Hbefore. now left.
Qed.

Lemma amount_first_positive_witness :
  extract_amount (txt "Total: 0 Amount $45.00 paid $3.00")
  = Ok (DFin false 4500 (-2)).
Proof.
  apply (amount_first_positive _ [pat_total] [pat_dollar; pat_bare] pat_amount
           (txt "45.00")); try reflexivity.
  intros q cap' d' [<-|[]] Hc Hd. vm_compute in Hc. inversion Hc; subst cap'.
  vm_compute in Hd. inversion Hd. reflexivity.
Defined.

(** ** Categories of a longer text *)

Lemma lower_app (a b : text) : lower (a ++ b) = lower a ++ lower b.
Proof. apply map_app. Qed.

Lemma startswith_app (p s b : text) :
  startswith p s = true -> startswith p (s ++ b) = true.
Proof.
  revert s. induction p as [|x p IH]; intros s H; [reflexivity|].
  destruct s as [|y s]; [discriminate|]. simpl in *.
  apply andb_true_iff in H as [H1 H2]. rewrite H1. simpl. auto.
Qed.

Lemma contains_app_r (p s b : text) :
  contains p s = true -> contains p (s ++ b) = true.
Proof.
  induction s as [|y s IH]; intros H.
  - simpl in H. rewrite orb_false_r in H. destruct p; [|discriminate].
    destruct b; reflexivity.
  - cbn [contains] in H. cbn [app contains].
    apply orb_true_iff in H as [H|H].
    + pose proof (startswith_app p (y :: s) b H) as H'.
      cbn [app] in H'. rewrite H'. reflexivity.
    + rewrite (IH H). apply orb_true_r.
Qed.

Lemma contains_app_l (p a s : text) :
  contains p s = true -> contains p (a ++ s) = true.
Proof.
  intros H. induction a as [|y a IH]; [exact H|].
  cbn [app contains]. rewrite IH. apply orb_true_r.
Qed.

Lemma any_keyword_grows (keywords : list text) (a s b : text) :
  any_keyword keywords s = true ->
  any_keyword keywords (a ++ s ++ b) = true.
Proof.
  unfold any_keyword. rewrite !existsb_exists.
  intros (k & Hk & Hc). exists k. split; [exact Hk|].
  apply contains_app_l, contains_app_r, Hc.
Qed.

(** X6: a text inside a longer one: the longer text gets the same category
    or one earlier in the order food, transport, office, travel,
    healthcare, other.  So what is food stays food, and what has a category
    never becomes [other]. *)
Theorem category_of_longer_text (a s b : text) :
  category_rank (categorize_expense (a ++ s ++ b))
  <= category_rank (categorize_expense s).
Proof.
  unfold categorize_expense. rewrite !lower_app.
  generalize (lower a) (lower s) (lower b). clear a s b. intros a s b.
  unfold categories.
  repeat match goal with
         | |- context [(?c, map txt ?l) :: _] =>
             let k := fresh "kws" in
             pose proof (any_keyword_grows (map txt l) a s b);
             set (k := map txt l) in *
         end.
  cbn [first_category].
  repeat match goal with
         | H : any_keyword ?k s = true -> _ |- _ =>
             destruct (any_keyword k s);
             [ rewrite (H eq_refl) | clear H ]
         end;
  repeat match goal with
         | |- context [any_keyword ?k (a ++ s ++ b)] =>
             destruct (any_keyword k (a ++ s ++ b))
         end;
  vm_compute; lia.
Qed.

(** ** The description *)

Lemma split_not_nil (sep : ascii) (s : text) : split sep s <> [].
Proof.
  destruct s as [|c s]; simpl; [discriminate|].
  destruct (Ascii.eqb c sep); [discriminate|].
  destruct (split sep s); discriminate.
Qed.

(** No piece of a split holds the separator. *)
Lemma split_no_sep (sep : ascii) (s : text) :
  forall l, In l (split sep s) -> ~ In sep l.
Proof.
  induction s as [|c s IH]; simpl; intros l Hl.
  - destruct Hl as [<-|[]]. auto.
  - destruct (Ascii.eqb c sep) eqn:E.
    + destruct Hl as [<-|Hl]; auto.
    + destruct (split sep s) as [|l0 ls] eqn:Es.
      * destruct Hl as [<-|[]]. intros [->|[]].
        rewrite Ascii.eqb_refl in E. discriminate.
      * destruct Hl as [<-|Hl].
        -- intros [->|H]; [rewrite Ascii.eqb_refl in E; discriminate|].
           apply (IH l0); [now left | exact H].
        -- apply IH. now right.
Qed.

Lemma lstrip_suffix (l : text) : exists pre, l = pre ++ lstrip l.
Proof.
  induction l as [|c l [pre IH]]; simpl.
  - exists []. reflexivity.
  - destruct (is_space c).
    + exists (c :: pre). simpl. now rewrite <- IH.
    + exists []. reflexivity.
Qed.

Lemma lstrip_head (l : text) (c : ascii) (t : text) :
  lstrip l = c :: t -> is_space c = false.
Proof.
  induction l as [|x l IH]; simpl; [discriminate|].
  destruct (is_space x) eqn:E; [exact IH|].
  intros H. inversion H; subst. exact E.
Qed.

Lemma strip_in (l : text) (x : ascii) : In x (strip l) -> In x l.
Proof.
  unfold strip. intros H. apply in_rev in H.
  destruct (lstrip_suffix (rev (lstrip l))) as [p1 H1].
  assert (H2 : In x (rev (lstrip l))) by (rewrite H1; apply in_or_app; auto).
  apply in_rev in H2.
  destruct (lstrip_suffix l) as [p2 H3]. rewrite H3. apply in_or_app. auto.
Qed.

(** A stripped string starts with a character that is no blank. *)
Lemma strip_head (l : text) (c : ascii) (t : text) :
  strip l = c :: t -> is_space c = false.
Proof.
  unfold strip. intros H.
  destruct (lstrip_suffix (rev (lstrip l))) as [pre Hpre].
  assert (Hv : lstrip (rev (lstrip l)) = rev t ++ [c]).
  { rewrite <- (rev_involutive (lstrip (rev (lstrip l)))), H. reflexivity. }
  rewrite Hv in Hpre.
  assert (Hu : lstrip l = c :: rev (pre ++ rev t)).
  { rewrite <- (rev_involutive (lstrip l)), Hpre.
    rewrite app_assoc, rev_app_distr. reflexivity. }
  eapply lstrip_head. exact Hu.
Qed.

(** X7: a description taken from the text has 6 to 50 characters, no
    line feed inside and no blank in front.  The text is cut at line feeds
    only, so another line break, a carriage return say, can stay inside. *)
Theorem description_has_no_line_feed (s s3_key line : text) :
  find qualifies (stripped_lines s) = Some line ->
  6 <= length (extract_description s s3_key) <= 50 /\
  ~ In NL (extract_description s s3_key) /\
  exists c rest, extract_description s s3_key = c :: rest /\
                 is_space c = false.
Proof.
  intros H. unfold extract_description. rewrite H.
  apply find_some in H as [Hin Hq].
  unfold stripped_lines in Hin. apply filter_In in Hin as [Hin _].
  apply in_map_iff in Hin as (l0 & Hl0 & Hin).
  unfold qualifies in Hq. apply andb_true_iff in Hq as [Hlen _].
  apply Nat.ltb_lt in Hlen.
  split; [|split].
  - rewrite length_firstn. lia.
  - intros Hnl. apply (split_no_sep NL s l0 Hin).
    apply strip_in. rewrite Hl0.
    rewrite <- (firstn_skipn 50 line). apply in_or_app. now left.
  - destruct line as [|c t]; [simpl in Hlen; lia|].
    exists c, (firstn 49 t). split; [reflexivity|].
    eapply strip_head. exact Hl0.
Qed.

Lemma description_has_no_line_feed_witness :
  6 <= length (extract_description
                 (txt "  Starbucks Coffee  " ++ NL :: txt "Total: $4.85")
                 (txt "r.jpg")) <= 50 /\
  ~ In NL (extract_description
             (txt "  Starbucks Coffee  " ++ NL :: txt "Total: $4.85")
             (txt "r.jpg")) /\
  exists c rest,
    extract_description
      (txt "  Starbucks Coffee  " ++ NL :: txt "Total: $4.85") (txt "r.jpg")
    = c :: rest /\ is_space c = false.
Proof.
  apply (description_has_no_line_feed _ _ (txt "Starbucks Coffee")). reflexivity.
Defined.

(** A carriage return is no line feed: it stays in the description. *)
Lemma carriage_return_stays :
  extract_description (txt "Corner" ++ "013" :: txt "Shop 12") (txt "r.jpg")
  = txt "Corner" ++ "013" :: txt "Shop 12".
Proof. reflexivity. Qed.

(** The last piece of a split of a string that does not end with the
    separator is not empty. *)
Lemma last_piece_not_empty (sep c : ascii) (s : text) :
  Ascii.eqb c sep = false -> last (split sep (s ++ [c])) [] <> [].
Proof.
  intros Hc. induction s as [|x s IH].
  - simpl. rewrite Hc. discriminate.
  - cbn [app split]. pose proof (split_not_nil sep (s ++ [c])) as Hn.
    destruct (split sep (s ++ [c])) as [|l ls] eqn:Es; [congruence|].
    destruct (Ascii.eqb x sep).
    + exact IH.
    + destruct ls as [|l' ls']; [discriminate|]. exact IH.
Qed.

Lemma replace_char_nil (a b : ascii) (s : text) :
  replace_char a b s = [] -> s = [].
Proof. destruct s; [reflexivity | discriminate]. Qed.

(** A key with one of the document suffixes does not end with a slash. *)
Lemma supported_key_end (key : text) :
  endswith_any document_suffixes (lower key) = true ->
  exists k c, key = k ++ [c] /\ Ascii.eqb c "/" = false.
Proof.
  intros H. destruct (rev key) as [|c r] eqn:E.
  - apply (f_equal (@rev ascii)) in E. rewrite rev_involutive in E.
    subst key. discriminate H.
  - exists (rev r), c. split.
    + rewrite <- (rev_involutive key), E. reflexivity.
    + destruct (Ascii.eqb c "/") eqn:Ec; [|reflexivity].
      apply Ascii.eqb_eq in Ec. subst c.
      assert (Hk : key = rev r ++ ["/"])
        by (rewrite <- (rev_involutive key), E; reflexivity).
      rewrite Hk in H. unfold endswith_any, endswith, lower in H.
      rewrite map_app, rev_app_distr in H. discriminate H.
Qed.

(** A line that qualifies is not empty, cut or not. *)
Lemma qualifying_line_filled (lines : list text) (line : text) :
  find qualifies lines = Some line -> is_nil (firstn 50 line) = false.
Proof.
  intros E. apply find_some in E as [_ Hq]. unfold qualifies in Hq.
  apply andb_true_iff in Hq as [Hlen _]. apply Nat.ltb_lt in Hlen.
  destruct line; [simpl in Hlen; lia | reflexivity].
Qed.

(** The file name of a key that ends with a document suffix is not
    empty. *)
Lemma label_filled (key : text) :
  endswith_any document_suffixes (lower key) = true ->
  is_nil (filename_label key) = false.
Proof.
  intros H. destruct (supported_key_end key H) as (k & c & -> & Hc).
  unfold filename_label.
  destruct (replace_char "_" " " (last (split "/" (k ++ [c])) [])) eqn:Er;
    [|reflexivity].
  apply replace_char_nil in Er.
  now apply last_piece_not_empty in Er.
Qed.

(** X8: for a key that ends with a document suffix the description is
    never empty, whatever the text: a line that qualifies has more than
    five characters, and the file name of such a key is not empty. *)
Theorem description_not_empty (s key : text) :
  endswith_any document_suffixes (lower key) = true ->
  is_nil (extract_description s key) = false.
Proof.
  intros H. unfold extract_description.
  destruct (find qualifies (stripped_lines s)) as [line|] eqn:E.
  - eapply qualifying_line_filled. exact E.
  - now apply label_filled.
Qed.

Lemma description_not_empty_witness :
  is_nil (extract_description (txt "15.75") (txt "uploads/x.TXT")) = false.
Proof. apply description_not_empty. reflexivity. Defined.

(** ** Dates that come out as they are written *)

Lemma digit_not_sep (c : ascii) :
  is_digit c = true -> slash_or_dash c = false.
Proof.
  intros H. unfold slash_or_dash, is_char.
  destruct (Ascii.eqb "/" c) eqn:E1;
    [apply Ascii.eqb_eq in E1; subst; discriminate|].
  destruct (Ascii.eqb "-" c) eqn:E2;
    [apply Ascii.eqb_eq in E2; subst; discriminate|].
  reflexivity.
Qed.

Section IsoText.

Variables y1 y2 y3 y4 m1 m2 d1 d2 : ascii.
Hypothesis Hy1 : is_digit y1 = true.
Hypothesis Hy2 : is_digit y2 = true.
Hypothesis Hy3 : is_digit y3 = true.
Hypothesis Hy4 : is_digit y4 = true.
Hypothesis Hm1 : is_digit m1 = true.
Hypothesis Hm2 : is_digit m2 = true.
Hypothesis Hd1 : is_digit d1 = true.
Hypothesis Hd2 : is_digit d2 = true.

Let iso : text := [y1; y2; y3; y4; "-"; m1; m2; "-"; d1; d2].
Let us : text := [m1; m2; "/"; d1; d2; "/"; y1; y2; y3; y4].

Ltac digits :=
  repeat (simpl;
          rewrite ?Hy1, ?Hy2, ?Hy3, ?Hy4, ?Hm1, ?Hm2, ?Hd1, ?Hd2,
            ?(digit_not_sep y1 Hy1), ?(digit_not_sep y2 Hy2),
            ?(digit_not_sep y3 Hy3), ?(digit_not_sep y4 Hy4),
            ?(digit_not_sep m1 Hm1), ?(digit_not_sep m2 Hm2),
            ?(digit_not_sep d1 Hd1), ?(digit_not_sep d2 Hd2)).

(** On [YYYY-MM-DD] the first date pattern finds nothing and the second
    takes the whole text. *)
Lemma iso_search :
  re_search pat_date1 iso = None /\
  re_search pat_date2 iso = Some (0, (10, [("1", iso)])).
Proof.
  unfold re_search, pat_date1, pat_date2, digits12, digits4, digits2, iso.
  split; digits; reflexivity.
Qed.

(** On [MM/DD/YYYY] the first date pattern takes the whole text. *)
Lemma us_search :
  re_search pat_date1 us = Some (0, (10, [("1", us)])).
Proof.
  unfold re_search, pat_date1, digits12, digits4, digits2, us.
  digits; reflexivity.
Qed.

End IsoText.

Lemma lower_is_slash (x : ascii) :
  Ascii.eqb (lower_char x) (lower_char "/") = true -> x = "/".
Proof.
  destruct x as [[] [] [] [] [] [] [] []]; vm_compute; intros H;
    reflexivity || discriminate.
Qed.

(** A string [strptime] accepts is a string of the format's expression. *)
Lemma strptime_lang (s f : text) (d : date) :
  strptime s f = Ok d -> lang (format_regex f) s.
Proof.
  unfold strptime.
  destruct (run (format_regex f) accept 0 s []) as [[j c]|] eqn:E;
    [|discriminate].
  destruct (j =? length s) eqn:Ej; [|discriminate]. intros _.
  apply Nat.eqb_eq in Ej.
  apply run_sound in E as (w & s' & c' & -> & L & E).
  unfold accept in E. injection E as Hj Hc. rewrite length_app in Ej.
  destruct s' as [|x s']; [|simpl in Ej; lia].
  now rewrite app_nil_r.
Qed.

(** The two formats with slashes refuse a string without a slash. *)
Lemma slash_formats_need_slash (s f : text) :
  In f [txt "%m/%d/%Y"; txt "%d/%m/%Y"] -> ~ In "/" s ->
  strptime s f = Raise ValueError.
Proof.
  intros Hf Hs. destruct (strptime s f) as [d|e] eqn:E.
  - exfalso. apply Hs. apply strptime_lang in E.
    assert (L : exists a b, lang (Cat a (Cat (ci "/") b)) s).
    { destruct Hf as [<-|[<-|[]]].
      - exists (directive "m"), (format_regex (txt "%d/%Y")). exact E.
      - exists (directive "d"), (format_regex (txt "%m/%Y")). exact E. }
    destruct L as (a & b & L). cbn [lang ci] in L.
    destruct L as (w1 & w2 & -> & _ & (u1 & u2 & -> & (x & -> & Hx) & _)).
    apply lower_is_slash in Hx. subst x.
    apply in_or_app. right. now left.
  - apply strptime_raises in E. now subst.
Qed.

(** The parts [%m/] and [%d/] of a format on a printed month and day. *)
Lemma month_slash (m : Z) (R : regex) (k : cont) (i : nat) (rest : text)
    (c0 : caps) :
  (1 <= m <= 12)%Z ->
  run (Cat (directive "m") (Cat (ci "/") R)) k i (pad2 m ++ "/" :: rest) c0
  = run R k (S (S (S i))) rest (("m", pad2 m) :: c0).
Proof.
  intros Hm. assert (E : S (S i) - i = 2) by lia.
  enum_below m 13%nat; [lia | ..];
    (simpl; rewrite E; destruct (run R k _ rest _); reflexivity).
Qed.

Lemma day_slash (dd : Z) (R : regex) (k : cont) (i : nat) (rest : text)
    (c0 : caps) :
  (1 <= dd <= 31)%Z ->
  run (Cat (directive "d") (Cat (ci "/") R)) k i (pad2 dd ++ "/" :: rest) c0
  = run R k (S (S (S i))) rest (("d", pad2 dd) :: c0).
Proof.
  intros Hd. assert (E : S (S i) - i = 2) by lia.
  enum_below dd 32%nat; [lia | ..];
    (simpl; rewrite E; destruct (run R k _ rest _); reflexivity).
Qed.

Lemma pad2_ints (m dd : Z) :
  (1 <= m <= 12)%Z -> (1 <= dd <= 31)%Z ->
  int_of (pad2 m) = m /\ int_of (pad2 dd) = dd.
Proof.
  intros Hm Hd. destruct (month_day_match m dd [] Hm Hd) as (_ & H1 & H2).
  auto.
Qed.

Lemma valid_date_bounds (d : date) :
  valid_date d = true ->
  (1 <= year d <= 9999)%Z /\ (1 <= month d <= 12)%Z /\ (1 <= day d <= 31)%Z.
Proof.
  unfold valid_date. intros Hv.
  repeat (apply andb_true_iff in Hv as [Hv ?]).
  repeat match goal with
         | H : (_ <=? _)%Z = true |- _ => apply Z.leb_le in H
         end.
  pose proof (days_in_month_le (year d) (month d)). lia.
Qed.

(** [MM/DD/YYYY] as printed parses back under [%m/%d/%Y]. *)
Lemma strptime_us (d : date) :
  valid_date d = true -> (1000 <= year d)%Z ->
  strptime (pad2 (month d) ++ "/" :: pad2 (day d) ++ "/" :: str_int (year d))
           (txt "%m/%d/%Y") = Ok d.
Proof.
  intros Hv Hy. destruct (valid_date_bounds d Hv) as (By & Bm & Bd).
  destruct d as [y m dd]. cbn [year month day] in *.
  destruct (pad2_ints m dd Bm Bd) as [Im Id].
  unfold strptime. rewrite str_int_four by lia.
  change (format_regex (txt "%m/%d/%Y"))
    with (Cat (directive "m") (Cat (ci "/") (Cat (directive "d")
            (Cat (ci "/") (Cat (directive "Y") Eps))))).
  rewrite month_slash by lia. rewrite day_slash by lia.
  destruct (digit_char_facts (y / 1000)) as (D1 & _).
  destruct (digit_char_facts (y / 100)) as (D2 & _).
  destruct (digit_char_facts (y / 10)) as (D3 & _).
  destruct (digit_char_facts y) as (D4 & _).
  cbn [run directive digits4 digits2 Ascii.eqb Bool.eqb andb].
  rewrite D1, D2, D3, D4.
  cbn [accept].
  replace (length _) with 10 by (unfold pad2; reflexivity). cbn [Nat.eqb].
  replace (year_of _) with y.
  2:{ unfold year_of. cbn [group Ascii.eqb Bool.eqb andb].
      replace (10 - 6) with 4 by reflexivity.
      change (firstn 4 ?l) with l.
      rewrite int_of_four. zlia. }
  unfold field_of. cbn [group Ascii.eqb Bool.eqb andb].
  rewrite Im, Id, Hv. reflexivity.
Qed.

Lemma try_format_keeps (s f : text) (d : date) :
  strptime s f = Ok d -> (1950 <= year d)%Z ->
  try_format s f = Ok (Some (strftime d)).
Proof.
  intros H Hy. unfold try_format. rewrite H. cbn [bind].
  assert (E : (year d <? 1950)%Z = false) by (apply Z.ltb_ge; lia).
  rewrite E. reflexivity.
Qed.

Lemma try_format_refuses (s f : text) :
  strptime s f = Raise ValueError -> try_format s f = Ok None.
Proof. intros H. unfold try_format. rewrite H. reflexivity. Qed.

Lemma digits_have_no_slash (l : text) :
  forallb (fun c => is_digit c || is_char "-" c) l = true -> ~ In "/" l.
Proof.
  rewrite forallb_forall. intros H Hin. apply H in Hin. discriminate.
Qed.

(** X9: a date in the form the extractor prints, with a year from 1950 on,
    is read back as itself: on its own output the extractor changes
    nothing. *)
Theorem iso_date_fixed_point (now d : date) :
  valid_date d = true -> (1950 <= year d)%Z ->
  extract_date now (strftime d) = Ok (strftime d).
Proof.
  intros Hv Hy. pose proof (strptime_strftime d Hv ltac:(lia)) as Hp.
  destruct (valid_date_bounds d Hv) as (By & Bm & Bd).
  assert (Hns : ~ In "/" (strftime d)).
  { apply digits_have_no_slash. unfold strftime, pad2.
    rewrite str_int_four by lia. cbn [app forallb].
    repeat match goal with
           | |- context [is_digit (digit_char ?n)] =>
               rewrite (proj1 (digit_char_facts n))
           end. reflexivity. }
  pose proof (slash_formats_need_slash (strftime d) (txt "%m/%d/%Y")
                ltac:(simpl; auto) Hns) as F1.
  pose proof (slash_formats_need_slash (strftime d) (txt "%d/%m/%Y")
                ltac:(simpl; auto) Hns) as F2.
  apply try_format_refuses in F1, F2.
  pose proof (try_format_keeps _ _ d Hp Hy) as F3.
  assert (Hloop : format_loop (strftime d) date_formats
                  = Ok (Some (strftime d))).
  { unfold date_formats. cbn [format_loop]. rewrite F1. cbn [bind].
    rewrite F2. cbn [bind]. rewrite F3. reflexivity. }
  revert Hloop. unfold strftime, pad2.
  rewrite str_int_four by lia. cbn [app]. intros Hloop.
  unfold extract_date, date_patterns. cbn [pattern_loop]. unfold try_pattern.
  match goal with
  | |- context [re_search pat_date1 [?a; ?b; ?c; ?e; _; ?f; ?g; _; ?h; ?i]] =>
      destruct (iso_search a b c e f g h i) as [S1 S2];
        try apply digit_char_facts
  end.
  rewrite S1. cbn [bind]. rewrite S2. cbn [group Ascii.eqb Bool.eqb andb].
  rewrite Hloop. reflexivity.
Qed.

Lemma iso_date_fixed_point_witness :
  extract_date (mkdate 2026 11 4) (strftime (mkdate 2024 3 10))
  = Ok (strftime (mkdate 2024 3 10)).
Proof.
  apply (iso_date_fixed_point (mkdate 2026 11 4) (mkdate 2024 3 10));
    [reflexivity | simpl; lia].
Defined.

(** X10: a date written [MM/DD/YYYY], with a year from 1950 on, is read
    month first and printed [YYYY-MM-DD]. *)
Theorem us_date_normalized (now d : date) :
  valid_date d = true -> (1950 <= year d)%Z ->
  extract_date now
    (pad2 (month d) ++ "/" :: pad2 (day d) ++ "/" :: str_int (year d))
  = Ok (strftime d).
Proof.
  intros Hv Hy. pose proof (strptime_us d Hv ltac:(lia)) as Hp.
  destruct (valid_date_bounds d Hv) as (By & Bm & Bd).
  pose proof (try_format_keeps _ _ d Hp Hy) as F1.
  revert F1. unfold pad2. rewrite str_int_four by lia. cbn [app].
  intros F1.
  unfold extract_date, date_patterns. cbn [pattern_loop]. unfold try_pattern.
  match goal with
  | |- context [re_search pat_date1 [?f; ?g; _; ?h; ?i; _; ?a; ?b; ?c; ?e]] =>
      rewrite (us_search a b c e f g h i) by apply digit_char_facts
  end.
  cbn [group Ascii.eqb Bool.eqb andb]. unfold date_formats.
  cbn [format_loop]. rewrite F1. reflexivity.
Qed.

Lemma us_date_normalized_witness :
  extract_date (mkdate 2026 11 4) (txt "03/04/2024") = Ok (txt "2024-03-04").
Proof.
  apply (us_date_normalized (mkdate 2026 11 4) (mkdate 2024 3 4));
    [reflexivity | simpl; lia].
Defined.

(** ** What the handler writes *)

Lemma grows_refl (e : env) (st : hstate) : grows_by e st st [].
Proof.
  unfold grows_by. rewrite app_nil_r. simpl. repeat split; try lia.
  constructor.
Qed.

Lemma grows_trans (e : env) (a b c : hstate) (x y : list pyval) :
  grows_by e a b x -> grows_by e b c y -> grows_by e a c (x ++ y).
Proof.
  intros (T1 & P1 & E1 & F1) (T2 & P2 & E2 & F2). unfold grows_by.
  rewrite T2, T1, P2, P1, length_app, app_assoc.
  repeat split; try lia. apply Forall_app. now split.
Qed.

Lemma extract_expense_info_fields (random_bits : N) (utcnow_iso : text)
    (now : date) (s s3_key : text) (item : pyval) :
  extract_expense_info random_bits utcnow_iso now s s3_key = Ok item ->
  getitem item (txt "s3_key") = Ok (PStr s3_key) /\
  getitem item (txt "raw_text") = Ok (PStr (firstn 500 s)).
Proof.
  unfold extract_expense_info.
  destruct (extract_amount s) as [a|x]; [|discriminate].
  destruct (extract_date now s) as [d|x]; [|discriminate].
  cbn [bind]. intros H. injection H as <-. split; reflexivity.
Qed.

(** One record adds nothing or one stored item. *)
Lemma process_record_grows (e : env) (record : pyval) (st : hstate) :
  exists added, grows_by e st (step e record st) added.
Proof.
  unfold step, process_record, bindM, lift, ret, set_key, next_extraction,
    save.
  destruct (bucket_of record) as [b|x]; [|exists []; apply grows_refl].
  destruct (key_of record) as [k|x]; [|exists []; apply grows_refl].
  destruct (str_lower k) as [kl|x] eqn:Ekl;
    [|exists []; cbn [snd]; unfold grows_by; cbn [table processed_count
        extractions length]; rewrite app_nil_r;
      repeat split; try lia; constructor].
  assert (Hskip : forall kv n, grows_by e st
            (mkstate kv (processed_count st) (table st) (n + extractions st))
            []).
  { intros kv n. unfold grows_by.
    cbn [table processed_count extractions length]. rewrite app_nil_r.
    repeat split; try lia. constructor. }
  destruct (endswith_any document_suffixes kl) eqn:Esup; cbn [negb];
    [|exists []; apply (Hskip _ 0)].
  destruct k as [| | | |k| | |]; try (exists []; apply (Hskip _ 0)).
  cbn [str_lower] in Ekl. injection Ekl as <-.
  destruct (read_text e b k) as [full_text|x];
    [|exists []; apply (Hskip _ 0)].
  destruct (is_nil (strip full_text)); [exists []; apply (Hskip _ 0)|].
  cbn [extractions key_var processed_count table].
  destruct (extract_expense_info _ _ _ full_text k) as [item|x] eqn:Ei;
    [|exists []; apply (Hskip _ 1)].
  destruct (validate_expense_data item) as [[|]|x] eqn:Ev; cbn [negb];
    try (exists []; apply (Hskip _ 1)).
  cbn [extractions key_var processed_count table].
  destruct (put_item e item) as [u|x] eqn:Ep;
    [|exists []; apply (Hskip _ 1)].
  exists [item]. unfold grows_by.
  cbn [snd table processed_count extractions length].
  repeat split; try lia. constructor; [|constructor].
  destruct (extract_expense_info_fields _ _ _ _ _ _ Ei) as [Hk Hr].
  destruct u. repeat split; try assumption.
  exists k, (firstn 500 full_text). repeat split; try assumption.
  apply firstn_length_le.
Qed.

Lemma records_loop_grows (e : env) (records : list pyval) :
  forall st, exists added,
    grows_by e st (snd (records_loop e records st)) added.
Proof.
  induction records as [|r rs IH]; intros st.
  - exists []. apply grows_refl.
  - destruct (process_record_grows e r st) as [a Ha]. unfold step in Ha.
    cbn [records_loop].
    destruct (process_record e r st) as [[u|x] st'] eqn:Ep; cbn [snd] in Ha.
    + destruct (IH st') as [b Hb]. exists (a ++ b).
      eapply grows_trans; eassumption.
    + destruct (key_var st').
      * destruct (IH st') as [b Hb]. exists (a ++ b).
        eapply grows_trans; eassumption.
      * exists a. exact Ha.
Qed.

(** X11: whatever the event and the collaborators, the handler only
    appends to the table; every item it appends passed the validator, was
    taken by the table, carries a supported key and at most 500 characters
    of raw text; the count it keeps is the number of items appended, and a
    200 answer reports that number. *)
Theorem handler_appends_valid_items (e : env) (event : pyval)
    (tbl : list pyval) (n : nat) :
  exists added,
    table (snd (lambda_handler e event tbl n)) = tbl ++ added /\
    processed_count (snd (lambda_handler e event tbl n)) = length added /\
    n + length added <= extractions (snd (lambda_handler e event tbl n)) /\
    Forall (stored_item e) added /\
    (forall c, fst (lambda_handler e event tbl n) = Status200 c ->
               c = length added).
Proof.
  assert (Hnone : exists added,
             table (initial tbl n) = tbl ++ added /\
             processed_count (initial tbl n) = length added /\
             n + length added <= extractions (initial tbl n) /\
             Forall (stored_item e) added).
  { exists []. cbn. rewrite app_nil_r. repeat split; try lia. constructor. }
  unfold lambda_handler.
  destruct (init_services e) as [u|x].
  2:{ destruct Hnone as (a & H1 & H2 & H3 & H4). exists a. cbn [snd fst].
      repeat split; try assumption. discriminate. }
  destruct (py_in (txt "Records") event) as [[|]|x].
  2,3: destruct Hnone as (a & H1 & H2 & H3 & H4); exists a; cbn [snd fst];
       repeat split; try assumption; discriminate.
  destruct (rs <- getitem event (txt "Records") ;; py_iter rs)
    as [records|x].
  2:{ destruct Hnone as (a & H1 & H2 & H3 & H4). exists a. cbn [snd fst].
      repeat split; try assumption. discriminate. }
  destruct (records_loop_grows e records (initial tbl n))
    as (a & T & P & E & F).
  cbn [initial table processed_count extractions] in T, P, E.
  exists a.
  destruct (records_loop e records (initial tbl n)) as [[u'|x] st];
    cbn [snd fst] in *; repeat split; try assumption; try lia;
    try discriminate.
  intros c Hc. injection Hc as <-. lia.
Qed.

(** ** The validator on any value *)

Lemma check_required_accepts (fields : list text) (v : pyval) :
  fields <> [] -> check_required fields v = Ok true ->
  exists kv, v = PDict kv.
Proof.
  destruct fields as [|f fs]; [congruence|]. intros _. cbn [check_required].
  destruct v; try discriminate; try (eexists; reflexivity).
  - cbn [py_in bind getitem]. destruct (negb _); discriminate.
  - cbn [py_in bind getitem]. destruct (negb _); discriminate.
Qed.

(** X12: the validator accepts a value exactly when it is a dict in which
    each of the five required fields is present and truthy, the amount is
    comparable with zero and not at most zero, and the date is a string
    that the [%Y-%m-%d] parse reads as a calendar date. *)
Theorem accepted_exactly (v : pyval) :
  validate_expense_data v = Ok true <->
  exists kv a s d,
    v = PDict kv /\
    Forall (fun f => exists x, lookup f kv = Some x /\ truthy x = true)
           required_fields /\
    lookup (txt "amount") kv = Some a /\ le_zero a = Ok false /\
    lookup (txt "date") kv = Some (PStr s) /\
    strptime s (txt "%Y-%m-%d") = Ok d /\ valid_date d = true.
Proof.
  split.
  - unfold validate_expense_data, validate_body.
    destruct (check_required required_fields v) as [[|]|x] eqn:Ec;
      cbn [bind negb]; try discriminate.
    assert (Hne : required_fields <> []) by discriminate.
    destruct (check_required_accepts _ _ Hne Ec) as [kv ->].
    rewrite check_required_dict in Ec. injection Ec as Ec.
    apply negb_true_iff in Ec.
    unfold getitem.
    destruct (lookup (txt "amount") kv) as [a|] eqn:Ea; [|discriminate].
    cbn [bind]. destruct (le_zero a) as [[|]|x] eqn:El; try discriminate.
    cbn [bind].
    destruct (lookup (txt "date") kv) as [dt|] eqn:Ed; [|discriminate].
    cbn [bind]. destruct dt as [| | | |s| | |]; try discriminate.
    cbn [check_date].
    destruct (strptime s (txt "%Y-%m-%d")) as [d|x] eqn:Ep.
    2:{ destruct x; discriminate. }
    intros _. exists kv, a, s, d. repeat split; try assumption.
    + apply Forall_forall. intros f Hf.
      assert (Hn : absent_or_empty kv f = false).
      { destruct (absent_or_empty kv f) eqn:E; [|reflexivity].
        assert (Hex : existsb (absent_or_empty kv) required_fields = true)
          by (apply existsb_exists; eauto).
        rewrite <- Hex. exact Ec. }
      unfold absent_or_empty in Hn.
      destruct (lookup f kv) as [x|]; [|discriminate].
      exists x. split; [reflexivity|]. now apply negb_false_iff in Hn.
    + eapply strptime_valid; eassumption.
  - intros (kv & a & s & d & -> & Hreq & Ea & El & Ed & Ep & _).
    unfold validate_expense_data, validate_body.
    rewrite check_required_dict.
    assert (Hn : existsb (absent_or_empty kv) required_fields = false).
    { destruct (existsb _ _) eqn:E; [|reflexivity].
      apply existsb_exists in E as (f & Hf & Hab).
      rewrite Forall_forall in Hreq. destruct (Hreq f Hf) as (x & Hx & Ht).
      unfold absent_or_empty in Hab. rewrite Hx, Ht in Hab. discriminate. }
    rewrite Hn. cbn [negb bind]. unfold getitem. rewrite Ea. cbn [bind].
    rewrite El. cbn [bind]. rewrite Ed. cbn [bind check_date].
    rewrite Ep. reflexivity.
Qed.

(** ** A text receipt, end to end *)

Lemma text_is_document (key : text) :
  endswith_any text_suffixes key = true ->
  endswith_any document_suffixes key = true.
Proof.
  unfold endswith_any, text_suffixes, document_suffixes.
  cbn [map existsb]. intros H.
  repeat (apply orb_true_iff in H as [H|H]; [rewrite H|]);
    rewrite ?orb_true_r; try reflexivity. discriminate.
Qed.

(** X13: a record for a [.txt] or [.text] object whose text is not blank,
    holds a positive amount and a date of the shape [YYYY-MM-DD] is saved:
    the table takes one more item, with that amount, date and key, and the
    count goes up by one. *)
Theorem text_receipt_saved (e : env) (bucket key full_text : text)
    (st : hstate) (amount : Decimal) (expense_date : text) :
  endswith_any text_suffixes (lower key) = true ->
  get_object e (PStr bucket) key = Ok full_text ->
  is_nil (strip full_text) = false ->
  valid_date (clock e (extractions st)) = true ->
  extract_amount full_text = Ok amount -> dec_gt0 amount = Ok true ->
  extract_date (clock e (extractions st)) full_text = Ok expense_date ->
  is_iso_shape expense_date = true ->
  (forall item, put_item e item = Ok tt) ->
  exists item,
    process_record e (s3_record bucket key) st
    = (Ok tt, mkstate (Some (PStr key)) (S (processed_count st))
                      (table st ++ [item]) (S (extractions st))) /\
    getitem item (txt "amount") = Ok (PDec amount) /\
    getitem item (txt "date") = Ok (PStr expense_date) /\
    getitem item (txt "s3_key") = Ok (PStr key).
Proof.
  intros Htxt Hget Hblank Hnow Ha Hpos Hd Hshape Hput.
  pose proof (text_is_document _ Htxt) as Hdoc.
  assert (Hdesc : is_nil (extract_description full_text key) = false).
  { unfold extract_description.
    destruct (find qualifies (stripped_lines full_text)) eqn:E;
      [eapply qualifying_line_filled; exact E | now apply label_filled]. }
  destruct (extract_date_result _ full_text Hnow) as (d & Hv & Hd').
  rewrite Hd in Hd'. injection Hd' as ->.
  pose proof (shape_year d Hv Hshape) as Hy.
  unfold process_record, bindM, lift, ret, set_key, next_extraction, save.
  change (bucket_of (s3_record bucket key)) with (@Ok pyval (PStr bucket)).
  change (key_of (s3_record bucket key)) with (@Ok pyval (PStr key)).
  cbn [str_lower]. rewrite Hdoc. cbn [negb]. unfold read_text.
  rewrite Htxt, Hget, Hblank.
  cbn [extractions key_var processed_count table].
  unfold extract_expense_info. rewrite Ha, Hd. cbn [bind].
  rewrite (validate_assembled _ _ _ _ _ _ _ _ d
             (str_uuid_not_empty _) Hpos (category_not_empty _) Hdesc
             (strptime_strftime d Hv ltac:(lia))).
  cbn [negb extractions key_var processed_count table]. rewrite Hput.
  eexists. split; [reflexivity|]. repeat split.
Qed.

Lemma text_receipt_saved_witness :
  exists item,
    process_record sample_env (s3_record (txt "uploads") (txt "receipt.txt"))
      (initial [] 0)
    = (Ok tt, mkstate (Some (PStr (txt "receipt.txt"))) 1 ([] ++ [item]) 1) /\
    getitem item (txt "amount") = Ok (PDec (DFin false 485 (-2))) /\
    getitem item (txt "date") = Ok (PStr (txt "2026-11-04")) /\
    getitem item (txt "s3_key") = Ok (PStr (txt "receipt.txt")).
Proof.
  apply (text_receipt_saved sample_env (txt "uploads") (txt "receipt.txt")
           (txt "Starbucks Coffee" ++ NL :: txt "Total: $4.85")
           (initial [] 0) (DFin false 485 (-2)) (txt "2026-11-04"));
    reflexivity.
Defined.

(** ** Uploads *)

Lemma startswith_split (p s : text) :
  startswith p s = true -> exists b, s = p ++ b.
Proof.
  revert s. induction p as [|a p IH]; intros s H.
  - exists s. reflexivity.
  - destruct s as [|c s]; [discriminate|]. simpl in H.
    apply andb_true_iff in H as [Ha Hp]. apply Ascii.eqb_eq in Ha. subst c.
    destruct (IH s Hp) as [b ->]. exists b. reflexivity.
Qed.

Lemma endswith_split (p s : text) :
  endswith p s = true -> exists a, s = a ++ p.
Proof.
  unfold endswith. intros H. apply startswith_split in H as [b Hb].
  exists (rev b). rewrite <- (rev_involutive s), Hb, rev_app_distr.
  now rewrite rev_involutive.
Qed.

Lemma endswith_app (p a s : text) :
  endswith p s = true -> endswith p (a ++ s) = true.
Proof.
  unfold endswith. rewrite rev_app_distr. apply startswith_app.
Qed.

Lemma endswith_any_app (suffixes : list text) (a s : text) :
  endswith_any suffixes s = true -> endswith_any suffixes (a ++ s) = true.
Proof.
  unfold endswith_any. intros H. apply existsb_exists in H as (x & Hx & He).
  apply existsb_exists. exists x. split; [exact Hx|]. now apply endswith_app.
Qed.

(** The allowed extensions of the upload are the document suffixes of the
    processor. *)
Lemma allowed_is_document (s : text) :
  endswith_any UploadApi.allowed_extensions s
  = endswith_any document_suffixes s.
Proof.
  unfold endswith_any, UploadApi.allowed_extensions, document_suffixes.
  cbn [map existsb].
  repeat match goal with
         | |- context [endswith ?p s] =>
             let b := fresh "b" in
             generalize (endswith p s); intros b
         end.
  repeat match goal with b : bool |- _ => destruct b end; reflexivity.
Qed.

Lemma last_cons {A : Type} (x : A) (l : list A) (d : A) :
  l <> [] -> last (x :: l) d = last l d.
Proof. destruct l; [congruence | reflexivity]. Qed.

Lemma split_app (sep : ascii) (a b : text) :
  exists l ls, split sep (a ++ sep :: b) = l :: ls /\ ls <> [] /\
               last ls [] = last (split sep b) [].
Proof.
  induction a as [|x a (l & ls & E & Hn & Hl)].
  - exists [], (split sep b). simpl. rewrite Ascii.eqb_refl.
    split; [reflexivity|]. split; [apply split_not_nil | reflexivity].
  - cbn [app split]. rewrite E. destruct (Ascii.eqb x sep).
    + exists [], (l :: ls). split; [reflexivity|].
      split; [discriminate|]. now rewrite last_cons.
    + exists (x :: l), ls. auto.
Qed.

Lemma split_single (sep : ascii) (b : text) :
  ~ In sep b -> split sep b = [b].
Proof.
  induction b as [|c b IH]; intros Hb; [reflexivity|]. simpl.
  destruct (Ascii.eqb c sep) eqn:E.
  - apply Ascii.eqb_eq in E. subst c. exfalso. apply Hb. now left.
  - rewrite IH; [reflexivity|]. intros H. apply Hb. now right.
Qed.

(** The last piece of a split is what follows the last separator. *)
Lemma split_last (sep : ascii) (a b : text) :
  ~ In sep b -> last (split sep (a ++ sep :: b)) [] = b.
Proof.
  intros Hb. destruct (split_app sep a b) as (l & ls & E & Hn & Hl).
  rewrite E, last_cons, Hl, split_single by assumption. reflexivity.
Qed.

Lemma lower_char_dot (x : ascii) : lower_char x = "."%char -> x = "."%char.
Proof.
  destruct x as [[] [] [] [] [] [] [] []]; vm_compute; intros H;
    reflexivity || discriminate.
Qed.

Lemma lower_keeps_dots (s : text) : ~ In "."%char s -> ~ In "."%char (lower s).
Proof.
  unfold lower. intros H Hin. apply in_map_iff in Hin as (x & Hx & Hin).
  apply lower_char_dot in Hx. subst x. contradiction.
Qed.

Lemma lower_char_idem (x : ascii) : lower_char (lower_char x) = lower_char x.
Proof. destruct x as [[] [] [] [] [] [] [] []]; reflexivity. Qed.

Lemma lower_idem (s : text) : lower (lower s) = lower s.
Proof.
  unfold lower. rewrite map_map. apply map_ext. apply lower_char_idem.
Qed.

(** X14: the content type goes by what follows the last dot of the file
    name, whatever its case; a name without a dot counts as its own
    extension. *)
Theorem content_type_by_last_dot (stem ext : text) :
  ~ In "."%char ext ->
  UploadApi.get_content_type (stem ++ "." :: ext)
  = UploadApi.content_type_of (lower ext) /\
  UploadApi.get_content_type ext = UploadApi.content_type_of (lower ext).
Proof.
  intros H. apply lower_keeps_dots in H. unfold UploadApi.get_content_type.
  rewrite lower_app. change (lower ("."%char :: ext)) with ("."%char :: lower ext).
  rewrite split_last by exact H. rewrite split_single by exact H.
  split; reflexivity.
Qed.

Lemma content_type_by_last_dot_witness :
  UploadApi.get_content_type (txt "scan.v2" ++ "." :: txt "PDF")
  = txt "application/pdf" /\
  UploadApi.get_content_type (txt "PDF") = txt "application/pdf".
Proof.
  apply (content_type_by_last_dot (txt "scan.v2") (txt "PDF")).
  vm_compute. intuition discriminate.
Defined.

(** The content type of a name with an allowed extension. *)
Lemma allowed_content_type (name : text) :
  endswith_any UploadApi.allowed_extensions (lower name) = true ->
  In (UploadApi.get_content_type name)
     (map txt ["image/jpeg"; "image/png"; "application/pdf";
               "text/plain"]%string).
Proof.
  unfold endswith_any, UploadApi.allowed_extensions. cbn [map existsb].
  unfold UploadApi.get_content_type. intros H.
  cbv [txt list_ascii_of_string] in H.
  repeat (apply orb_true_iff in H as [H|H]); try discriminate;
    apply endswith_split in H as [a Ha]; rewrite Ha;
    match goal with
    | |- context [a ++ "."%char :: ?e] =>
        rewrite (split_last "." a e) by (vm_compute; intuition discriminate)
    end; vm_compute; tauto.
Qed.

Ltac upload_paths H :=
  unfold UploadApi.upload, UploadApi.missing_fields in H;
  repeat match type of H with
         | context [match ?x with _ => _ end] =>
             destruct x eqn:?; cbn [bind negb] in H; try discriminate H
         | context [if ?x then _ else _] =>
             destruct x eqn:?; cbn [bind negb] in H; try discriminate H
         | context [bind ?x _] =>
             destruct x eqn:?; cbn [bind negb] in H; try discriminate H
         end.

(** X15: the key of an upload answered 200 is [uploads/], the time stamp,
    an underscore and the file name; the processor takes it for a document,
    and one object was put, in the documents bucket under that key, with
    the content type of an image, a PDF or plain text. *)
Theorem uploaded_key_is_processed (sv : UploadApi.services) (event : pyval)
    (s3_key filename : text) (objects : list UploadApi.s3_object) :
  UploadApi.lambda_handler sv event
  = Ok (UploadApi.Uploaded s3_key filename, objects) ->
  s3_key = txt "uploads/" ++ UploadApi.timestamp (UploadApi.now sv)
             ++ "_" :: filename /\
  endswith_any document_suffixes (lower s3_key) = true /\
  unsupported (s3_record UploadApi.bucket_name s3_key) = false /\
  In (UploadApi.get_content_type filename)
     (map txt ["image/jpeg"; "image/png"; "application/pdf";
               "text/plain"]%string) /\
  exists file_data,
    objects = [UploadApi.mkobject UploadApi.bucket_name s3_key file_data
                 (UploadApi.get_content_type filename)] /\
    UploadApi.put_object sv
      (UploadApi.mkobject UploadApi.bucket_name s3_key file_data
         (UploadApi.get_content_type filename)) = Ok tt.
Proof.
  intros H.
  assert (Hmain :
    s3_key = txt "uploads/" ++ UploadApi.timestamp (UploadApi.now sv)
               ++ "_" :: filename /\
    endswith_any UploadApi.allowed_extensions (lower filename) = true /\
    exists file_data,
      objects = [UploadApi.mkobject UploadApi.bucket_name s3_key file_data
                   (UploadApi.get_content_type filename)] /\
      UploadApi.put_object sv
        (UploadApi.mkobject UploadApi.bucket_name s3_key file_data
           (UploadApi.get_content_type filename)) = Ok tt).
  { unfold UploadApi.lambda_handler in H.
    destruct (UploadApi.is_preflight event) as [[|]|y]; cbn [bind] in H;
      try discriminate.
    destruct (UploadApi.upload sv event) as [[r o]|y] eqn:Eu;
      try discriminate.
    injection H as -> ->.
    upload_paths Eu;
      injection Eu as <- <- <-;
      match goal with
      | E : str_lower (PStr _) = Ok _ |- _ =>
          cbn [str_lower] in E; injection E as <-
      end;
      (split; [reflexivity|]);
      (split; [match goal with
               | E : negb ?b = false |- ?b = true =>
                   now apply negb_false_iff in E
               end|]);
      eexists; split; [reflexivity|];
      match goal with
      | E : UploadApi.put_object sv ?o = Ok ?u |- _ =>
          destruct u; exact E
      end. }
  destruct Hmain as (Hk & Hall & Hobj).
  assert (Hdoc : endswith_any document_suffixes (lower s3_key) = true).
  { rewrite Hk.
    replace (txt "uploads/" ++ UploadApi.timestamp (UploadApi.now sv)
               ++ "_" :: filename)
      with ((txt "uploads/" ++ UploadApi.timestamp (UploadApi.now sv)
               ++ ["_"%char]) ++ filename)
      by (rewrite <- !app_assoc; reflexivity).
    rewrite lower_app. apply endswith_any_app.
    now rewrite <- allowed_is_document. }
  split; [exact Hk|]. split; [exact Hdoc|]. split.
  - unfold unsupported. change (key_of (s3_record _ s3_key))
      with (@Ok pyval (PStr s3_key)).
    cbv iota beta. now rewrite Hdoc.
  - split; [now apply allowed_content_type | exact Hobj].
Qed.

Lemma uploaded_key_is_processed_witness :
  sample_key = txt "uploads/"
                 ++ UploadApi.timestamp (UploadApi.now sample_services)
                 ++ "_" :: txt "Lunch_Receipt.JPG" /\
  endswith_any document_suffixes (lower sample_key) = true /\
  unsupported (s3_record UploadApi.bucket_name sample_key) = false /\
  In (UploadApi.get_content_type (txt "Lunch_Receipt.JPG"))
     (map txt ["image/jpeg"; "image/png"; "application/pdf";
               "text/plain"]%string) /\
  exists file_data,
    [UploadApi.mkobject UploadApi.bucket_name sample_key
       (UploadApi.encode_utf8 (txt "Total: $4.85")) (txt "image/jpeg")]
    = [UploadApi.mkobject UploadApi.bucket_name sample_key file_data
         (UploadApi.get_content_type (txt "Lunch_Receipt.JPG"))] /\
    UploadApi.put_object sample_services
      (UploadApi.mkobject UploadApi.bucket_name sample_key file_data
         (UploadApi.get_content_type (txt "Lunch_Receipt.JPG"))) = Ok tt.
Proof.
  exact (uploaded_key_is_processed sample_services sample_upload _ _ _
           eq_refl).
Defined.

(** X16: the upload handler raises only when the preflight test meets a
    value without [get]; every other failure is answered, and an answer
    other than the 200 of an upload comes with nothing put. *)
Theorem upload_outcomes (sv : UploadApi.services) (event : pyval) :
  (forall x, UploadApi.lambda_handler sv event = Raise x ->
             x = AttributeError /\
             UploadApi.is_preflight event = Raise AttributeError) /\
  (forall r objects,
      UploadApi.lambda_handler sv event = Ok (r, objects) ->
      match r with
      | UploadApi.Uploaded _ _ => length objects = 1
      | _ => objects = []
      end).
Proof.
  split.
  - intros x H. unfold UploadApi.lambda_handler in H.
    destruct (UploadApi.is_preflight event) as [[|]|y] eqn:Ep;
      cbn [bind] in H; try discriminate.
    + destruct (UploadApi.upload sv event); discriminate.
    + injection H as ->. unfold UploadApi.is_preflight, UploadApi.py_get in Ep.
      repeat match type of Ep with
             | context [match ?v with _ => _ end] =>
                 destruct v; cbn [bind] in Ep; try discriminate Ep
             end; injection Ep as <-; split; reflexivity.
  - intros r objects H. unfold UploadApi.lambda_handler in H.
    destruct (UploadApi.is_preflight event) as [[|]|y]; cbn [bind] in H;
      try discriminate.
    { injection H as <- <-. reflexivity. }
    destruct (UploadApi.upload sv event) as [[r' o']|y] eqn:Eu.
    2:{ injection H as <- <-. reflexivity. }
    injection H as -> ->.
    upload_paths Eu; injection Eu as <- <-; reflexivity.
Qed.

(** ** An uploaded file in the processor *)

Lemma digits_of_digits (fuel : nat) :
  forall n acc, forallb is_digit acc = true ->
                forallb is_digit (digits_of fuel n acc) = true.
Proof.
  induction fuel as [|f IH]; intros n acc H; cbn [digits_of]; [exact H|].
  assert (H' : forallb is_digit (digit_char n :: acc) = true).
  { cbn [forallb]. rewrite H.
    now destruct (digit_char_facts n) as (-> & _). }
  destruct (n / 10 =? 0)%Z; [exact H' | now apply IH].
Qed.

Lemma pad2_digits (n : Z) : forallb is_digit (pad2 n) = true.
Proof.
  unfold pad2. cbn [forallb].
  destruct (digit_char_facts (n / 10)) as (-> & _).
  now destruct (digit_char_facts n) as (-> & _).
Qed.

(** A digit is neither a slash nor an underscore. *)
Lemma digit_plain (c : ascii) :
  is_digit c = true ->
  c <> "/"%char /\ (if Ascii.eqb c "_" then " "%char else c) = c.
Proof.
  destruct c as [[] [] [] [] [] [] [] []]; vm_compute; intros H;
    try discriminate; split; congruence.
Qed.

Lemma digits_plain (l : text) :
  forallb is_digit l = true -> ~ In "/"%char l /\ replace_char "_" " " l = l.
Proof.
  induction l as [|c l IH]; simpl; intros H; [auto|].
  apply andb_true_iff in H as [Hc Hl]. destruct (IH Hl) as [H1 H2].
  destruct (digit_plain c Hc) as [Hs Hr]. split.
  - intros [E|E]; [congruence | contradiction].
  - unfold replace_char in *. simpl. now rewrite Hr, H2.
Qed.

Lemma replace_char_app (a b : ascii) (x y : text) :
  replace_char a b (x ++ y) = replace_char a b x ++ replace_char a b y.
Proof. apply map_app. Qed.

(** X17: for a file uploaded through the API, with no slash in its name,
    whose text has no line that qualifies, the description is the time
    stamp and the file name with their underscores turned into spaces. *)
Theorem uploaded_file_label (t : UploadApi.datetime) (name s : text) :
  valid_datetime t = true -> ~ In "/"%char name ->
  find qualifies (stripped_lines s) = None ->
  extract_description s
    (txt "uploads/" ++ UploadApi.timestamp t ++ "_" :: name)
  = str_int (year (UploadApi.on t)) ++ pad2 (month (UploadApi.on t))
      ++ pad2 (day (UploadApi.on t)) ++ " " :: pad2 (UploadApi.hour t)
      ++ pad2 (UploadApi.minute t) ++ pad2 (UploadApi.second t)
      ++ " " :: replace_char "_" " " name.
Proof.
  intros _ Hname Hfind. unfold extract_description. rewrite Hfind.
  unfold filename_label, UploadApi.timestamp.
  pose (date_part := str_int (year (UploadApi.on t))
                       ++ pad2 (month (UploadApi.on t))
                       ++ pad2 (day (UploadApi.on t))).
  pose (time_part := pad2 (UploadApi.hour t) ++ pad2 (UploadApi.minute t)
                       ++ pad2 (UploadApi.second t)).
  assert (Hd : forallb is_digit date_part = true).
  { unfold date_part. rewrite !forallb_app, !pad2_digits.
    unfold str_int. now rewrite digits_of_digits. }
  assert (Ht : forallb is_digit time_part = true).
  { unfold time_part. now rewrite !forallb_app, !pad2_digits. }
  destruct (digits_plain _ Hd) as [Hd1 Hd2].
  destruct (digits_plain _ Ht) as [Ht1 Ht2].
  match goal with
  | |- replace_char _ _ (last (split _ ?k) []) = ?r =>
      replace k with (txt "uploads" ++ "/" :: (date_part ++ "_" :: time_part
                                                 ++ "_" :: name))
        by (unfold date_part, time_part;
            cbn [txt list_ascii_of_string app];
            rewrite <- !app_assoc; cbn [app]; rewrite <- !app_assoc;
            reflexivity);
      replace r with (date_part ++ " " :: time_part
                        ++ " " :: replace_char "_" " " name)
        by (unfold date_part, time_part; rewrite <- !app_assoc;
            reflexivity)
  end.
  rewrite split_last.
  - rewrite replace_char_app, Hd2.
    change (replace_char "_" " " ("_" :: time_part ++ "_" :: name))
      with (" "%char :: replace_char "_" " " (time_part ++ "_" :: name)).
    rewrite replace_char_app, Ht2. reflexivity.
  - intros H. apply in_app_or in H as [H|[H|H]];
      [contradiction | discriminate |].
    apply in_app_or in H as [H|[H|H]];
      [contradiction | discriminate | contradiction].
Qed.

Lemma uploaded_file_label_witness :
  extract_description (txt "15.75")
    (txt "uploads/20240115_103000_Lunch_Receipt.JPG")
  = txt "20240115 103000 Lunch Receipt.JPG".
Proof.
  apply (uploaded_file_label
           (UploadApi.mkdatetime (mkdate 2024 1 15) 10 30 0)
           (txt "Lunch_Receipt.JPG") (txt "15.75")).
  - reflexivity.
  - vm_compute. intuition discriminate.
  - reflexivity.
Defined.

(** ** Keywords, whatever the case *)

Lemma in_all_chars (c : ascii) : In c all_chars.
Proof.
  unfold all_chars. rewrite <- (ascii_nat_embedding c). apply in_map.
  apply in_seq. pose proof (nat_ascii_bounded c). lia.
Qed.

(** A test that holds on each of the 256 characters holds on every
    character. *)
Lemma all_chars_check (P : ascii -> bool) :
  forallb P all_chars = true -> forall c, P c = true.
Proof.
  intros H c. rewrite forallb_forall in H. apply H, in_all_chars.
Qed.

Lemma small_letter_listed (k : ascii) :
  between 97 122 k = true -> In k (map ascii_of_nat (seq 97 26)).
Proof.
  intros Hk.
  pose proof (all_chars_check
                (fun k => implb (between 97 122 k)
                            (existsb (Ascii.eqb k)
                                     (map ascii_of_nat (seq 97 26))))
                ltac:(vm_compute; reflexivity) k) as H.
  cbv beta in H. rewrite Hk in H. apply existsb_exists in H as (x & Hx & E).
  apply Ascii.eqb_eq in E. now subst.
Qed.

(** Lowering a character gives a small letter [k] exactly when the
    character is [k], small or capital. *)
Lemma lower_char_same (c k : ascii) :
  between 97 122 k = true -> Ascii.eqb (lower_char c) k = same_letter c k.
Proof.
  intros Hk. apply small_letter_listed in Hk.
  assert (H : forallb (fun c => forallb
                         (fun k => Bool.eqb (Ascii.eqb (lower_char c) k)
                                            (same_letter c k))
                         (map ascii_of_nat (seq 97 26)))
                      all_chars = true) by (vm_compute; reflexivity).
  pose proof (all_chars_check _ H c) as Hc. cbv beta in Hc.
  rewrite forallb_forall in Hc. now apply eqb_prop, Hc.
Qed.

Lemma same_letter_lower (x y : ascii) :
  same_letter x y = true -> lower_char x = lower_char y.
Proof.
  unfold same_letter. intros H. apply orb_true_iff in H as [H|H].
  - apply Ascii.eqb_eq in H. now subst.
  - apply andb_true_iff in H as [Hx Hy]. apply Nat.eqb_eq in Hy.
    assert (E : y = ascii_of_nat (code x + 32)).
    { rewrite Hy. unfold code. now rewrite ascii_nat_embedding. }
    subst y.
    pose proof (all_chars_check
                  (fun x => implb (between 65 90 x)
                              (Ascii.eqb (lower_char x)
                                 (lower_char (ascii_of_nat (code x + 32)))))
                  ltac:(vm_compute; reflexivity) x) as H.
    cbv beta in H. rewrite Hx in H. now apply Ascii.eqb_eq in H.
Qed.

Lemma lower_matches (keyword : text) :
  forallb (between 97 122) keyword = true ->
  forall mid, lower mid = keyword <->
              Forall2 (fun c k => same_letter c k = true) mid keyword.
Proof.
  induction keyword as [|k kw IH]; intros Hk mid.
  - split.
    + destruct mid; [constructor | discriminate].
    + intros H. inversion H. reflexivity.
  - cbn [forallb] in Hk. apply andb_true_iff in Hk as [Hk Hkw]. split.
    + destruct mid as [|c mid]; [discriminate|]. intros H.
      unfold lower in H. cbn [map] in H. injection H as Hc Hm.
      constructor.
      * rewrite <- lower_char_same by exact Hk. now apply Ascii.eqb_eq.
      * now apply IH.
    + intros H. inversion H as [|c k' mid' kw' Hc Hm]; subst.
      unfold lower. cbn [map]. f_equal.
      * rewrite <- lower_char_same in Hc by exact Hk.
        now apply Ascii.eqb_eq in Hc.
      * now apply IH.
Qed.

Lemma startswith_self (p b : text) : startswith p (p ++ b) = true.
Proof.
  induction p as [|x p IH]; [reflexivity|]. simpl.
  now rewrite Ascii.eqb_refl, IH.
Qed.

(** [p in t] is: [t] is a string, then [p], then a string. *)
Lemma contains_split (p t : text) :
  contains p t = true <-> exists pre post, t = pre ++ p ++ post.
Proof.
  split.
  - induction t as [|x t IH]; simpl; intros H.
    + rewrite orb_false_r in H. apply startswith_split in H as [b Hb].
      exists [], b. exact Hb.
    + apply orb_true_iff in H as [H|H].
      * apply startswith_split in H as [b Hb]. exists [], b. exact Hb.
      * destruct (IH H) as (pre & post & ->). exists (x :: pre), post.
        reflexivity.
  - intros (pre & post & ->). apply contains_app_l.
    destruct (p ++ post) eqn:E; simpl; rewrite <- E, startswith_self;
      reflexivity.
Qed.

(** The substring test of the code on the lowered text is the occurrence
    of the keyword whatever the case. *)
Lemma occurs_contains (keyword s : text) :
  forallb (between 97 122) keyword = true ->
  contains keyword (lower s) = true <-> occurs_nocase keyword s.
Proof.
  intros Hk. rewrite contains_split. unfold occurs_nocase. split.
  - intros (pre' & post' & H). unfold lower in H.
    apply map_eq_app in H as (pre & rest & -> & Hpre & H).
    apply map_eq_app in H as (mid & post & -> & Hmid & Hpost).
    exists pre, mid, post. split; [reflexivity|].
    now apply (lower_matches keyword Hk).
  - intros (pre & mid & post & -> & H).
    apply (lower_matches keyword Hk) in H.
    exists (lower pre), (lower post). now rewrite !lower_app, H.
Qed.

Lemma keywords_small (c : text * list text) (k : text) :
  In c categories -> In k (snd c) -> forallb (between 97 122) k = true.
Proof.
  assert (H : forallb (fun c => forallb (forallb (between 97 122)) (snd c))
                      categories = true) by (vm_compute; reflexivity).
  rewrite forallb_forall in H. intros Hc Hk. apply H in Hc.
  rewrite forallb_forall in Hc. now apply Hc.
Qed.

Lemma any_keyword_occurs (c : text * list text) (s : text) :
  In c categories ->
  any_keyword (snd c) (lower s) = true <-> category_occurs c s.
Proof.
  intros Hc. unfold any_keyword, category_occurs. rewrite existsb_exists.
  split; intros (k & Hk & H); exists k; (split; [exact Hk|]);
    now apply (occurs_contains k s (keywords_small c k Hc Hk)).
Qed.

Lemma any_keyword_misses (c : text * list text) (s : text) :
  In c categories ->
  any_keyword (snd c) (lower s) = false <-> ~ category_occurs c s.
Proof.
  intros Hc. rewrite <- (any_keyword_occurs c s Hc).
  destruct (any_keyword (snd c) (lower s)); split; congruence.
Qed.

(** The loop over the table answers the category at a place exactly when
    that category has a keyword inside and none before it has. *)
Lemma first_category_exact (t : text) (before after : list (text * list text))
    (category : text) (keywords : list text) :
  ~ In category (map fst before) -> ~ In category (map fst after) ->
  category <> txt "other" ->
  first_category (before ++ (category, keywords) :: after) t = category <->
  any_keyword keywords t = true /\
  forall c, In c before -> any_keyword (snd c) t = false.
Proof.
  intros Hb Ha Ho. split.
  - induction before as [|[c0 k0] before IH]; cbn [app first_category].
    + destruct (any_keyword keywords t) eqn:E.
      * intros _. split; [reflexivity | intros c []].
      * intros H. exfalso. pose proof (first_category_in t after) as Hin.
        rewrite H in Hin. apply in_app_or in Hin as [Hin|[Hin|[]]];
          [now apply Ha | now apply Ho].
    + destruct (any_keyword k0 t) eqn:E.
      * intros ->. exfalso. apply Hb. now left.
      * intros H. destruct IH as [Hk Hbefore];
          [intros Hin; apply Hb; now right | exact H |].
        split; [exact Hk|]. intros c [<-|Hc]; [exact E | now apply Hbefore].
  - intros [Hk Hbefore]. now apply first_category_first.
Qed.

Lemma first_category_other (t : text) (cats : list (text * list text)) :
  ~ In (txt "other") (map fst cats) ->
  first_category cats t = txt "other" <->
  forall c, In c cats -> any_keyword (snd c) t = false.
Proof.
  intros Ho. split; [|apply first_category_none].
  induction cats as [|[c0 k0] cats IH]; cbn [first_category];
    [intros _ c []|].
  destruct (any_keyword k0 t) eqn:E.
  - intros ->. exfalso. apply Ho. now left.
  - intros H c [<-|Hc]; [exact E|]. apply IH; [|exact H|exact Hc].
    intros Hin. apply Ho. now right.
Qed.

Lemma same_nocase_lower (a b : text) : same_nocase a b -> lower a = lower b.
Proof.
  induction 1 as [|x y a b Hxy _ IH]; [reflexivity|].
  unfold lower in *. cbn [map]. rewrite IH. f_equal.
  destruct Hxy as [H|H]; [|symmetry]; now apply same_letter_lower.
Qed.

(** C4: the category is one of the six names; the categories stand in
    the order food, transport, office, travel, healthcare; the answer is a
    category exactly when one of its keywords stands in the text, whatever
    the case of the text's letters, and no keyword of a category before
    it does; the answer is [other] exactly when no keyword of any category
    stands in the text; and two texts that differ in the case of their
    letters only get the same answer. *)
Theorem categorize_expense_spec (s : text) :
  In (categorize_expense s)
     (map txt ["food"; "transport"; "office"; "travel"; "healthcare";
               "other"]%string) /\
  map fst categories
  = map txt ["food"; "transport"; "office"; "travel"; "healthcare"]%string /\
  (forall before category keywords after,
      categories = before ++ (category, keywords) :: after ->
      categorize_expense s = category <->
      category_occurs (category, keywords) s /\
      forall c, In c before -> ~ category_occurs c s) /\
  (categorize_expense s = txt "other" <->
   forall c, In c categories -> ~ category_occurs c s) /\
  (forall s', same_nocase s' s ->
              categorize_expense s' = categorize_expense s).
Proof.
  split; [apply (first_category_in (lower s) categories)|].
  split; [reflexivity|]. split; [|split].
  - intros before category keywords after Hc.
    assert (Hin : forall c, In c (before ++ (category, keywords) :: after) ->
                            In c categories) by (now rewrite Hc).
    assert (Hnames : NoDup (map fst (before ++ (category, keywords) :: after)
                            ++ [txt "other"])).
    { rewrite <- Hc. repeat constructor; simpl; intuition discriminate. }
    rewrite map_app in Hnames. cbn [map fst] in Hnames.
    rewrite <- app_assoc in Hnames. cbn [app] in Hnames.
    pose proof (NoDup_remove_2 _ _ _ Hnames) as Hnot.
    unfold categorize_expense. rewrite Hc, first_category_exact.
    + rewrite (any_keyword_occurs (category, keywords) s)
        by (apply Hin, in_or_app; right; now left).
      split; intros [Hk Hb]; (split; [exact Hk|]); intros c Hcb.
      * apply any_keyword_misses; [|now apply Hb].
        apply Hin, in_or_app. now left.
      * apply any_keyword_misses; [|now apply Hb].
        apply Hin, in_or_app. now left.
    + intros H. apply Hnot, in_or_app. now left.
    + intros H. apply Hnot, in_or_app. right. apply in_or_app. now left.
    + intros ->. apply Hnot, in_or_app. right. apply in_or_app. right.
      now left.
  - unfold categorize_expense. rewrite first_category_other.
    + split; intros H c Hc.
      * apply any_keyword_misses; [exact Hc | now apply H].
      * apply any_keyword_misses; [exact Hc | now apply H].
    + simpl. intuition discriminate.
  - intros s' Hs. unfold categorize_expense.
    now rewrite (same_nocase_lower s' s Hs).
Qed.

(** The texts of the repository's tests, and one in capitals with a later
    category's keyword as well. *)
Lemma categorize_expense_spec_witness :
  categorize_expense (txt "STARBUCKS Coffee, Hotel lobby") = txt "food" /\
  categorize_expense (txt "Uber ride to airport") = txt "transport" /\
  categorize_expense (txt "Random expense") = txt "other".
Proof.
  assert (Hno : forall s c, In c categories ->
                            any_keyword (snd c) (lower s) = false ->
                            ~ category_occurs c s).
  { intros s c Hc H. now apply any_keyword_misses. }
  split; [|split].
  - destruct (categorize_expense_spec (txt "STARBUCKS Coffee, Hotel lobby"))
      as (_ & _ & H & _).
    apply (H [] (txt "food") _ _ eq_refl). split; [|intros c []].
    exists (txt "starbucks"). split; [simpl; tauto|].
    exists [], (txt "STARBUCKS"), (txt " Coffee, Hotel lobby").
    split; [reflexivity | repeat constructor].
  - destruct (categorize_expense_spec (txt "Uber ride to airport"))
      as (_ & _ & H & _).
    apply (H [_] (txt "transport") _ _ eq_refl). split.
    + exists (txt "uber"). split; [simpl; tauto|].
      exists [], (txt "Uber"), (txt " ride to airport").
      split; [reflexivity | repeat constructor].
    + intros c [<-|[]]. apply Hno; [now left | reflexivity].
  - apply (proj1 (proj2 (proj2 (proj2 (categorize_expense_spec
                                           (txt "Random expense")))))).
    intros c Hc. apply Hno; [exact Hc|].
    simpl in Hc. decompose [or] Hc; subst; try contradiction; reflexivity.
Defined.

(** ** The dates the validator takes *)


















